(** * simple_di: providers, injection and container synchronisation

    A shallow embedding of [simple_di/__init__.py].  Python objects live in
    a store indexed by locations, so that two names for one object are one
    location; every method of the source is a function on stores. *)

From Stdlib Require Import ZArith Lia.
From stdpp Require Import gmap strings list fin_maps.

Open Scope string_scope.

(** ** Values, exceptions, results *)

Definition loc := nat.

(** A Python value is an immediate ([None], a bool, an int, a str) or a
    reference to an object of the store. *)
Inductive value :=
| VNone
| VBool (b : bool)
| VInt (z : Z)
| VStr (s : string)
| VRef (l : loc).

Inductive exn :=
| NotImplementedError
| AttributeError
| KeyError
| TypeError
| ValueError
| UserError (tag : string).

Inductive result (A : Type) :=
| Ok (a : A)
| Raise (e : exn).
Arguments Ok {A} a.
Arguments Raise {A} e.

Definition bind {A B} (r : result A) (k : A -> result B) : result B :=
  match r with
  | Ok a => k a
  | Raise e => Raise e
  end.

Declare Scope py_scope.
Delimit Scope py_scope with py.
Notation "x <- c ; k" := (bind c (fun x => k))
  (at level 100, c at next level, right associativity) : py_scope.
Open Scope py_scope.

(** ** Classes *)

(** [_provide] of a concrete provider class reads the instance it is called
    on; it is a function of the instance's attribute dictionary. *)
Definition strategy := gmap string value -> result value.

(** A class of the [Provider] hierarchy, as [ProviderMeta.__new__] leaves it:
    its bases among that hierarchy (a base without [STATE_FIELDS], such as
    [Generic], contributes the empty tuple and is left out), the tuple stored
    under [STATE_FIELDS], and the [_provide] its instances resolve to. *)
#[warnings="-register-all"]
Inductive pyclass :=
| Class (name : string) (bases : list pyclass)
        (STATE_FIELDS : list string) (_provide : strategy).

Definition c_name (c : pyclass) : string :=
  let 'Class n _ _ _ := c in n.
Definition c_bases (c : pyclass) : list pyclass :=
  let 'Class _ b _ _ := c in b.
Definition c_STATE_FIELDS (c : pyclass) : list string :=
  let 'Class _ _ f _ := c in f.
Definition c_provide (c : pyclass) : strategy :=
  let 'Class _ _ _ p := c in p.

(** A [dataclasses.Field]: its name and its [default]; [None] is
    [dataclasses.MISSING]. *)
Record field := Field { f_name : string; f_default : option value }.

Record dataclass := Dataclass { dc_name : string; dc_fields : list field }.

(** An [inspect.Parameter] of a function declared [def f(p1, p2=d2, ...)]:
    positional-or-keyword, with [None] for [Parameter.empty]. *)
Record param := Param { p_name : string; p_default : option value }.

Definition signature := list param.

(** A function object is either written by the user or the closure [_]
    that [_inject] builds, which captures [func], [sig] and [squeeze_none]. *)
Inductive code :=
| Def (sig : signature)
| Closure (func : loc) (sig : signature) (squeeze_none : bool).

(** ** Objects and the store *)

Inductive obj :=
| SentinelObj
| ProviderObj (cls : pyclass) (attrs : gmap string value)
| ContainerObj (cls : dataclass) (attrs : gmap string value)
| FunctionObj (c : code) (attrs : gmap string value)
| PlainObj (attrs : gmap string value).

Abbreviation heap := (gmap loc obj).

(** [sentinel = _SentinelClass()], created when the module is loaded. *)
Definition sentinel_loc : loc := 0.
Definition sentinel : value := VRef sentinel_loc.

Definition module_loaded (h : heap) : Prop := h !! sentinel_loc = Some SentinelObj.

Definition isinstance_SentinelClass (h : heap) (v : value) : bool :=
  match v with
  | VRef l => match h !! l with Some SentinelObj => true | _ => false end
  | _ => false
  end.

Definition isinstance_Provider (h : heap) (v : value) : bool :=
  match v with
  | VRef l => match h !! l with Some (ProviderObj _ _) => true | _ => false end
  | _ => false
  end.

Definition is_dataclass (h : heap) (v : value) : bool :=
  match v with
  | VRef l => match h !! l with Some (ContainerObj _ _) => true | _ => false end
  | _ => false
  end.

(** [x is None] *)
Definition is_None (v : value) : bool :=
  match v with VNone => true | _ => false end.

(** [x is y]: immediates of the model have no identity of their own. *)
Definition is_ (v w : value) : bool :=
  match v, w with
  | VNone, VNone => true
  | VBool a, VBool b => Bool.eqb a b
  | VRef a, VRef b => Nat.eqb a b
  | _, _ => false
  end.

Definition truthy (v : value) : bool :=
  match v with
  | VNone => false
  | VBool b => b
  | VInt z => negb (Z.eqb z 0)
  | VStr s => negb (String.eqb s "")
  | VRef _ => true
  end.

Definition obj_attrs (o : obj) : gmap string value :=
  match o with
  | SentinelObj => ∅
  | ProviderObj _ a | ContainerObj _ a | FunctionObj _ a | PlainObj a => a
  end.

Definition with_attrs (o : obj) (a : gmap string value) : obj :=
  match o with
  | SentinelObj => SentinelObj
  | ProviderObj c _ => ProviderObj c a
  | ContainerObj c _ => ContainerObj c a
  | FunctionObj c _ => FunctionObj c a
  | PlainObj _ => PlainObj a
  end.

(** The instance dictionary of the object at [l]. *)
Definition attrs_at (h : heap) (l : loc) : gmap string value :=
  match h !! l with
  | Some o => obj_attrs o
  | None => ∅
  end.

(** [self.name], read on an instance. *)
Definition getattr (h : heap) (l : loc) (name : string) : option value :=
  attrs_at h l !! name.

(** [self.name = v], on an instance that has a dictionary. *)
Definition setattr (l : loc) (name : string) (v : value) (h : heap) : heap :=
  match h !! l with
  | Some o => <[l := with_attrs o (<[name := v]> (obj_attrs o))]> h
  | None => h
  end.

Definition class_of (h : heap) (l : loc) : option pyclass :=
  match h !! l with
  | Some (ProviderObj c _) => Some c
  | _ => None
  end.

(** ** Provider *)

Module Provider.

(** [Provider.__init__] on a new instance of [cls]. *)
Definition __init__ (cls : pyclass) : obj :=
  ProviderObj cls {[ "_override" := sentinel ]}.

(** [_provide] of the base class. *)
Definition _provide_base : strategy := fun _ => Raise NotImplementedError.

Definition _provide (h : heap) (self : loc) : result value :=
  match h !! self with
  | Some (ProviderObj c a) => c_provide c a
  | _ => Raise AttributeError
  end.

Definition set (self : loc) (v : value) (h : heap) : heap :=
  if isinstance_SentinelClass h v then h
  else setattr self "_override" v h.

Definition get (h : heap) (self : loc) : result value :=
  match getattr h self "_override" with
  | None => Raise AttributeError
  | Some o =>
      if negb (isinstance_SentinelClass h o) then Ok o
      else _provide h self
  end.

Definition reset (self : loc) (h : heap) : heap :=
  setattr self "_override" sentinel h.

(** *** [patch], a generator function under [contextlib.contextmanager]

    The generator is suspended at one of its two [yield]s; the second one
    has the local [original] in its frame. *)
Inductive patch_frame :=
| AtYield94
| AtYield98 (original : value).

(** Run the generator from its start to the first [yield]. *)
Definition patch_start (self : loc) (v : value) (h : heap)
  : result patch_frame * heap :=
  if isinstance_SentinelClass h v then (Ok AtYield94, h)
  else
    match getattr h self "_override" with
    | None => (Raise AttributeError, h)
    | Some original =>
        (Ok (AtYield98 original), setattr self "_override" v h)
    end.

(** [next(gen)] on the suspended generator: the code after the [yield],
    to the end of the function. *)
Definition patch_next (self : loc) (fr : patch_frame) (h : heap) : heap :=
  match fr with
  | AtYield94 => h
  | AtYield98 original => setattr self "_override" original h
  end.

(** [gen.throw(e)] on the suspended generator: [e] is raised at the
    [yield]; no [try] statement encloses either [yield], so it leaves the
    generator at once. *)
Definition patch_throw (self : loc) (fr : patch_frame) (e : exn) (h : heap)
  : exn * heap :=
  match fr with
  | AtYield94 => (e, h)
  | AtYield98 _ => (e, h)
  end.

(** [with self.patch(v): body], as [_GeneratorContextManager] runs it:
    [__enter__] is [next(gen)]; [__exit__] is [next(gen)] when the body
    ended normally and [gen.throw(e)] when it raised [e], and the
    exception the generator lets through is raised again. *)
Definition with_patch (self : loc) (v : value)
    (body : heap -> result unit * heap) (h : heap) : result unit * heap :=
  match patch_start self v h with
  | (Raise e, h1) => (Raise e, h1)
  | (Ok fr, h1) =>
      match body h1 with
      | (Ok _, h2) => (Ok tt, patch_next self fr h2)
      | (Raise e, h2) =>
          let '(e', h3) := patch_throw self fr e h2 in (Raise e', h3)
      end
  end.

(** [__getstate__]: the dictionary comprehension over [STATE_FIELDS]. *)
Fixpoint getstate_fields (a : gmap string value) (fs : list string)
  : result (gmap string value) :=
  match fs with
  | [] => Ok ∅
  | f :: fs' =>
      match a !! f with
      | None => Raise AttributeError
      | Some v => st <- getstate_fields a fs' ; Ok (<[f := v]> st)
      end
  end.

Definition __getstate__ (h : heap) (self : loc) : result (gmap string value) :=
  match h !! self with
  | Some (ProviderObj c a) => getstate_fields a (c_STATE_FIELDS c)
  | _ => Raise AttributeError
  end.

(** [__setstate__]: the loop over [STATE_FIELDS]; a missing key stops it
    with the earlier fields already assigned. *)
Fixpoint setstate_fields (self : loc) (state : gmap string value)
    (fs : list string) (h : heap) : result unit * heap :=
  match fs with
  | [] => (Ok tt, h)
  | i :: fs' =>
      match state !! i with
      | None => (Raise KeyError, h)
      | Some v => setstate_fields self state fs' (setattr self i v h)
      end
  end.

Definition __setstate__ (self : loc) (state : gmap string value) (h : heap)
  : result unit * heap :=
  match class_of h self with
  | Some c => setstate_fields self state (c_STATE_FIELDS c) h
  | None => (Raise AttributeError, h)
  end.

End Provider.

(** ** ProviderMeta: accretion of [STATE_FIELDS] *)

Module ProviderMeta.

(** [ProviderMeta.__new__(mcs, class_name, bases, attrs, state_fields)].
    [own] is [attrs.pop("STATE_FIELDS", ())], [None] when the class body
    does not assign it; [provide] is the [_provide] that attribute lookup
    finds on the new class. *)
Definition __new__ (class_name : string) (bases : list pyclass)
    (own : option (list string)) (provide : strategy)
    (state_fields : list string) : pyclass :=
  let all_state_fields : gset string := list_to_set state_fields in
  let all_state_fields :=
    foldl (fun acc base => acc ∪ list_to_set (c_STATE_FIELDS base))
          all_state_fields bases in
  let all_state_fields := all_state_fields ∪ list_to_set (default [] own) in
  Class class_name bases (elements all_state_fields) provide.

End ProviderMeta.

(** [class Provider(Generic[VT], metaclass=ProviderMeta)] *)
Definition Provider_class : pyclass :=
  ProviderMeta.__new__ "Provider" [] (Some ["_override"]) Provider._provide_base [].


(** ** The part of [inspect] that the wrapper uses

    [Signature.bind_partial], [BoundArguments.apply_defaults] and the
    properties [BoundArguments.args] and [BoundArguments.kwargs], for
    signatures whose parameters are all positional-or-keyword. *)

Module Inspect.

(** First loop of [Signature._bind]: positional arguments take the
    parameters in order.  Returns the parameters not yet consumed. *)
Fixpoint bind_positional (params : signature) (args : list value)
    (kwargs arguments : gmap string value)
  : result (gmap string value * signature) :=
  match args with
  | [] => Ok (arguments, params)
  | arg_val :: args' =>
      match params with
      | [] => Raise TypeError  (* too many positional arguments *)
      | p :: params' =>
          match kwargs !! p_name p with
          | Some _ => Raise TypeError  (* multiple values for argument *)
          | None =>
              bind_positional params' args' kwargs
                              (<[p_name p := arg_val]> arguments)
          end
      end
  end.

(** Second loop: each remaining parameter pops its keyword argument, if
    there is one ([partial=True]: a parameter left without one is fine). *)
Fixpoint bind_keywords (params : signature)
    (kwargs arguments : gmap string value)
  : gmap string value * gmap string value :=
  match params with
  | [] => (arguments, kwargs)
  | p :: params' =>
      match kwargs !! p_name p with
      | Some arg_val =>
          bind_keywords params' (delete (p_name p) kwargs)
                        (<[p_name p := arg_val]> arguments)
      | None => bind_keywords params' kwargs arguments
      end
  end.

Definition bind_partial (sig : signature) (args : list value)
    (kwargs : gmap string value) : result (gmap string value) :=
  pr <- bind_positional sig args kwargs ∅ ;
  let '(arguments, leftover) := bind_keywords pr.2 kwargs pr.1 in
  if decide (leftover = ∅) then Ok arguments
  else Raise TypeError.  (* got an unexpected keyword argument *)

Fixpoint apply_defaults_from (params : signature)
    (arguments new_arguments : gmap string value) : gmap string value :=
  match params with
  | [] => new_arguments
  | p :: params' =>
      match arguments !! p_name p with
      | Some v =>
          apply_defaults_from params' arguments (<[p_name p := v]> new_arguments)
      | None =>
          match p_default p with
          | Some val =>
              apply_defaults_from params' arguments
                                  (<[p_name p := val]> new_arguments)
          | None => apply_defaults_from params' arguments new_arguments
          end
      end
  end.

Definition apply_defaults (sig : signature) (arguments : gmap string value)
  : gmap string value :=
  apply_defaults_from sig arguments ∅.

(** [BoundArguments.args]: the values of the leading parameters that are
    bound, up to the first one that is not. *)
Fixpoint bound_args (params : signature) (arguments : gmap string value)
  : list value :=
  match params with
  | [] => []
  | p :: params' =>
      match arguments !! p_name p with
      | Some arg => arg :: bound_args params' arguments
      | None => []
      end
  end.

(** [BoundArguments.kwargs]: once a parameter is unbound, every later
    bound parameter goes by keyword, in the order of the signature. *)
Fixpoint bound_kwargs (kwargs_started : bool) (params : signature)
    (arguments : gmap string value) : list (string * value) :=
  match params with
  | [] => []
  | p :: params' =>
      match arguments !! p_name p with
      | Some arg =>
          if kwargs_started
          then (p_name p, arg) :: bound_kwargs true params' arguments
          else bound_kwargs false params' arguments
      | None => bound_kwargs true params' arguments
      end
  end.

(** Binding of an ordinary call [f] on positional and keyword arguments to the parameters of
    [f]: as above, and every parameter has to end up with a value. *)
Definition bind_call (sig : signature) (args : list value)
    (kwargs : list (string * value)) : result (gmap string value) :=
  if decide (NoDup kwargs.*1) then
    arguments <- bind_partial sig args (list_to_map kwargs) ;
    let arguments := apply_defaults sig arguments in
    if forallb (fun p => bool_decide (is_Some (arguments !! p_name p))) sig
    then Ok arguments
    else Raise TypeError  (* missing a required argument *)
  else Raise TypeError.

End Inspect.

(** ** The injection wrapper *)

(** The call of [func] that ends the wrapper: the function
    called and what it is called with. *)
Record invocation := Invoke {
  inv_func : loc;
  inv_args : list value;
  inv_kwargs : list (string * value)
}.

(** What [inject] returns: a wrapped callable, or the
    [functools.partial(_inject, squeeze_none=...)] to apply later. *)
Inductive injected :=
| Wrapped (f : loc)
| Factory (squeeze_none : bool).

Module Inject.

Definition resolve (h : heap) (a : value) : result value :=
  match a with
  | VRef l => if isinstance_Provider h a then Provider.get h l else Ok a
  | _ => Ok a
  end.

Fixpoint _inject_args (h : heap) (args : list value) : result (list value) :=
  match args with
  | [] => Ok []
  | a :: args' =>
      v <- resolve h a ;
      vs <- _inject_args h args' ;
      Ok (v :: vs)
  end.

Fixpoint _inject_kwargs (h : heap) (kwargs : list (string * value))
  : result (list (string * value)) :=
  match kwargs with
  | [] => Ok []
  | (k, v) :: kwargs' =>
      v' <- resolve h v ;
      rest <- _inject_kwargs h kwargs' ;
      Ok ((k, v') :: rest)
  end.

Definition filtered_args (squeeze_none : bool) (h : heap) (args : list value)
  : list value :=
  if negb squeeze_none
  then filter (fun a => isinstance_SentinelClass h a = false) args
  else filter (fun a => is_None a = false) args.

Definition filtered_kwargs (squeeze_none : bool) (h : heap)
    (kwargs : gmap string value) : gmap string value :=
  if negb squeeze_none
  then filter (fun kv => isinstance_SentinelClass h kv.2 = false) kwargs
  else filter (fun kv => is_None kv.2 = false) kwargs.

(** The body of the closure [_], with [func], [sig] and [squeeze_none]
    as captured. *)
Definition wrapper (func : loc) (sig : signature) (squeeze_none : bool)
    (h : heap) (args : list value) (kwargs : gmap string value)
  : result invocation :=
  let fargs := filtered_args squeeze_none h args in
  let fkwargs := filtered_kwargs squeeze_none h kwargs in
  arguments <- Inspect.bind_partial sig fargs fkwargs ;
  let arguments := Inspect.apply_defaults sig arguments in
  a <- _inject_args h (Inspect.bound_args sig arguments) ;
  k <- _inject_kwargs h (Inspect.bound_kwargs false sig arguments) ;
  Ok (Invoke func a k).

(** Calling the function object at [f], when it is such a closure. *)
Definition call (h : heap) (f : loc) (args : list value)
    (kwargs : gmap string value) : result invocation :=
  match h !! f with
  | Some (FunctionObj (Closure func sig squeeze_none) _) =>
      wrapper func sig squeeze_none h args kwargs
  | _ => Raise TypeError
  end.

(** [inspect.signature(func)]; on a closure made by [functools.wraps] it
    follows [__wrapped__] to the signature that was captured. *)
Definition inspect_signature (h : heap) (func : loc) : result signature :=
  match h !! func with
  | Some (FunctionObj (Def sig) _) => Ok sig
  | Some (FunctionObj (Closure _ sig _) _) => Ok sig
  | _ => Raise TypeError
  end.

Definition _inject (func : loc) (squeeze_none : bool) (h : heap)
  : result loc * heap :=
  if truthy (default (VBool false) (getattr h func "_is_injected"))
  then (Ok func, h)
  else
    match inspect_signature h func with
    | Raise e => (Raise e, h)
    | Ok sig =>
        let w := fresh (dom h) in
        (* functools.wraps: the wrapper's __dict__ takes func's and
           __wrapped__ *)
        let d := <["__wrapped__" := VRef func]> (attrs_at h func) in
        let d := <["_is_injected" := VBool true]> d in
        (Ok w, <[w := FunctionObj (Closure func sig squeeze_none) d]> h)
    end.

Definition callable (h : heap) (v : value) : bool :=
  match v with
  | VRef l => match h !! l with Some (FunctionObj _ _) => true | _ => false end
  | _ => false
  end.

Definition inject (func : value) (squeeze_none : bool) (h : heap)
  : result injected * heap :=
  if is_None func then (Ok (Factory squeeze_none), h)
  else if callable h func then
    match func with
    | VRef l =>
        match _inject l squeeze_none h with
        | (Ok w, h') => (Ok (Wrapped w), h')
        | (Raise e, h') => (Raise e, h')
        end
    | _ => (Raise ValueError, h)
    end
  else (Raise ValueError, h).

End Inject.

(** ** Container synchronisation *)

Module Sync.

(** [dataclasses.fields(x)] on an instance of a dataclass. *)
Definition fields (h : heap) (x : value) : result (list field) :=
  match x with
  | VRef l =>
      match h !! l with
      | Some (ContainerObj c _) => Ok (dc_fields c)
      | _ => Raise TypeError
      end
  | _ => Raise TypeError
  end.

(** The class attribute that a dataclass keeps for a field with a
    default. *)
Definition class_attr (c : dataclass) (name : string) : option value :=
  match List.find (fun f => String.eqb (f_name f) name) (dc_fields c) with
  | Some f => f_default f
  | None => None
  end.

(** [getattr(x, name, None)]: the instance dictionary first, then the
    class. *)
Definition getattr_or_None (h : heap) (x : value) (name : string) : value :=
  match x with
  | VRef l =>
      match h !! l with
      | Some (ContainerObj c a) =>
          match a !! name with
          | Some v => v
          | None => default VNone (class_attr c name)
          end
      | Some o => default VNone (obj_attrs o !! name)
      | None => VNone
      end
  | _ => VNone
  end.

(** [target.__getstate__()]; only a provider has the method. *)
Definition getstate_of (h : heap) (target : value)
  : result (gmap string value) :=
  match target with
  | VRef l => Provider.__getstate__ h l
  | _ => Raise AttributeError
  end.

(** The body of the [for] loop, with the recursive call as [rec]. *)
Definition sync_field
    (rec : value -> value -> heap -> option (result unit * heap))
    (from_ : value) (fd : field) (h : heap) : option (result unit * heap) :=
  let target := getattr_or_None h from_ (f_name fd) in
  if is_None target then Some (Ok tt, h)
  else
    match f_default fd with
    | Some (VRef s as src) =>
        if isinstance_Provider h src then
          match getstate_of h target with
          | Ok state => Some (Provider.__setstate__ s state h)
          | Raise e => Some (Raise e, h)
          end
        else if is_dataclass h src then rec src target h
        else Some (Ok tt, h)
    | _ => Some (Ok tt, h)
    end.

(** A [for] loop over the fields; an exception ends it. *)
Fixpoint for_fields
    (body : field -> heap -> option (result unit * heap))
    (fs : list field) (h : heap) : option (result unit * heap) :=
  match fs with
  | [] => Some (Ok tt, h)
  | fd :: fs' =>
      match body fd h with
      | Some (Ok _, h') => for_fields body fs' h'
      | other => other
      end
  end.

(** [sync_container(from_, to_)]; [depth] bounds the nesting of the
    recursive calls, and [None] says that it was not enough. *)
Fixpoint sync_container (depth : nat) (from_ to_ : value) (h : heap)
  : option (result unit * heap) :=
  match depth with
  | O => None
  | S depth' =>
      match fields h to_ with
      | Raise e => Some (Raise e, h)
      | Ok fs => for_fields (sync_field (sync_container depth') from_) fs h
      end
  end.

End Sync.

(** ** Example programs *)

Module Examples.

(** A provider class [Static] whose [_provide] returns the attribute
    [_value]. *)
Definition Static_provide : strategy :=
  fun a => match a !! "_value" with
           | Some v => Ok v
           | None => Raise AttributeError
           end.

Definition Static : pyclass :=
  ProviderMeta.__new__ "Static" [Provider_class] (Some ["_value"])
                       Static_provide [].

Definition Static_obj (override v : value) : obj :=
  ProviderObj Static (<["_value" := v]> {[ "_override" := override ]}).

(** A store with the module's sentinel and one [Static(1)] whose
    override is [10]. *)
Definition h_patch : heap :=
  <[1 := Static_obj (VInt 10) (VInt 1)]> {[ sentinel_loc := SentinelObj ]}.

Definition failing_body (h : heap) : result unit * heap :=
  (Raise (UserError "boom"), h).

(** The same store after [type(sentinel)()] (or a copy of [sentinel]
    that came back from pickling) made a second instance of
    [_SentinelClass], at location 2. *)
Definition h_two : heap := <[2 := SentinelObj]> h_patch.

Definition quiet_body (h : heap) : result unit * heap := (Ok tt, h).

(** The signature of [def f(a=Provider_A, b=2)], with [Provider_A] the
    provider at [pa]. *)
Definition sig_ab (pa : loc) : signature :=
  [Param "a" (Some (VRef pa)); Param "b" (Some (VInt 2))].

(** The signature of a [def f(a, b)] with any defaults. *)
Definition sig_f (da db : option value) : signature :=
  [Param "a" da; Param "b" db].

(** A store with [sentinel], the provider [Static(1)] at 1 (no
    override) and [def f(a=Provider_A, b=2)] at 2. *)
Definition h_inject : heap :=
  <[2 := FunctionObj (Def (sig_ab 1)) ∅]>
    (<[1 := Static_obj sentinel (VInt 1)]> {[ sentinel_loc := SentinelObj ]}).

(** [h_inject] after [inject(f)] and then [inject(f, squeeze_none=True)]
    on the same [f]: two closures, at 3 and at 4. *)
Definition h_wrapped : heap :=
  (Inject._inject 2 true (Inject._inject 2 false h_inject).2).2.

(** [class A(Provider)] with the field [cache], which [_provide]
    returns, and [class B(A)] that adds the field [stamp] and returns
    that. *)
Definition A_provide : strategy :=
  fun a => match a !! "cache" with
           | Some v => Ok v
           | None => Raise AttributeError
           end.

Definition B_provide : strategy :=
  fun a => match a !! "stamp" with
           | Some v => Ok v
           | None => Raise AttributeError
           end.

Definition A : pyclass :=
  ProviderMeta.__new__ "A" [Provider_class] (Some ["cache"]) A_provide [].

Definition B : pyclass :=
  ProviderMeta.__new__ "B" [A] (Some ["stamp"]) B_provide [].

(** A [B] instance at 1 with a cache and a stamp and no override, and at
    2 the [B] instance that [B.__init__] leaves: no override, no cache,
    no stamp yet. *)
Definition B_used : gmap string value :=
  <["stamp" := VInt 7]> (<["cache" := VInt 3]> {[ "_override" := sentinel ]}).

Definition B_fresh : gmap string value :=
  <["stamp" := VNone]> (<["cache" := VNone]> {[ "_override" := sentinel ]}).

Definition h_AB : heap :=
  <[2 := ProviderObj B B_fresh]>
    (<[1 := ProviderObj B B_used]> {[ sentinel_loc := SentinelObj ]}).

(** [@container class C: a: Provider = Static(1)]; the default of [a]
    is the provider at 1.  [from_] is the instance at 4, whose [a] is the
    provider at 2 (override 5); [to_] is the instance at 5, built as
    [C(a=...)] with the provider at 3 (override 7). *)
Definition C : dataclass := Dataclass "C" [Field "a" (Some (VRef 1))].

Definition h_sync : heap :=
  <[5 := ContainerObj C {[ "a" := VRef 3 ]}]>
  (<[4 := ContainerObj C {[ "a" := VRef 2 ]}]>
  (<[3 := Static_obj (VInt 7) (VInt 1)]>
  (<[2 := Static_obj (VInt 5) (VInt 1)]>
  (<[1 := Static_obj sentinel (VInt 1)]>
     {[ sentinel_loc := SentinelObj ]})))).

(** A nested declaration: [Inner] has the field [x] with the provider
    at 1 as default; [Outer] has the field [inner] whose default is the
    [Inner()] at 6.  [from_] is the [Outer] at 8, whose [inner] is the
    [Inner] at 7 with the provider at 2 (override 5); [to_] is the
    [Outer()] at 9. *)
Definition Inner : dataclass := Dataclass "Inner" [Field "x" (Some (VRef 1))].
Definition Outer : dataclass := Dataclass "Outer" [Field "inner" (Some (VRef 6))].

Definition h_nested : heap :=
  <[9 := ContainerObj Outer {[ "inner" := VRef 6 ]}]>
  (<[8 := ContainerObj Outer {[ "inner" := VRef 7 ]}]>
  (<[7 := ContainerObj Inner {[ "x" := VRef 2 ]}]>
  (<[6 := ContainerObj Inner {[ "x" := VRef 1 ]}]>
  (<[2 := Static_obj (VInt 5) (VInt 1)]>
  (<[1 := Static_obj sentinel (VInt 1)]>
     {[ sentinel_loc := SentinelObj ]}))))).

End Examples.

(** ** Vocabulary of the statements *)

(** The function's dictionary does not carry a true [_is_injected]. *)
Definition not_injected (d : gmap string value) : Prop :=
  truthy (default (VBool false) (d !! "_is_injected")) = false.

(** [v] is what [a.get() if isinstance(a, Provider) else a] yields. *)
Definition resolved (h : heap) (a v : value) : Prop :=
  if isinstance_Provider h a
  then exists l, a = VRef l /\ Provider.get h l = Ok v
  else v = a.

(** [a] is a proper ancestor of [c]. *)
Inductive ancestor (a : pyclass) : pyclass -> Prop :=
| ancestor_base c : a ∈ c_bases c -> ancestor a c
| ancestor_step b c : ancestor a b -> b ∈ c_bases c -> ancestor a c.

(** The classes that class statements create under [ProviderMeta]: each
    comes out of [__new__], applied to bases created before it. *)
#[warnings="-register-all"]
Inductive created : pyclass -> Prop :=
| created_new name bases own provide state_fields :
    Forall created bases ->
    created (ProviderMeta.__new__ name bases own provide state_fields).

Definition Provider_subtype (c : pyclass) : Prop :=
  created c /\ (c = Provider_class \/ ancestor Provider_class c).

(** [_provide] of [c] reads nothing of the instance but its state fields. *)
Definition state_determined (c : pyclass) : Prop :=
  forall a1 a2 : gmap string value,
    (forall f, f ∈ c_STATE_FIELDS c -> a1 !! f = a2 !! f) ->
    c_provide c a1 = c_provide c a2.

(** The object that a field's default refers to, if it refers to one. *)
Definition default_loc (fd : field) : option loc :=
  match f_default fd with
  | Some (VRef l) => Some l
  | _ => None
  end.

Definition default_locs (fs : list field) : list loc := omap default_loc fs.

(** [fd] is a field that the loop of [sync_container] copies: its default
    is the provider at [d], and [from_] has the object at [t] under the
    field's name. *)
Definition copies (h : heap) (from_ : value) (fd : field) (d t : loc) : Prop :=
  f_default fd = Some (VRef d) /\
  isinstance_Provider h (VRef d) = true /\
  Sync.getattr_or_None h from_ (f_name fd) = VRef t.

(** The provider at [t] has all its state fields, and they cover the
    state fields of the provider at [d]. *)
Definition exports_for (h : heap) (t d : loc) : Prop :=
  exists ct a_t cd a_d,
    h !! t = Some (ProviderObj ct a_t) /\
    h !! d = Some (ProviderObj cd a_d) /\
    (forall i, i ∈ c_STATE_FIELDS ct -> is_Some (a_t !! i)) /\
    c_STATE_FIELDS cd ⊆ c_STATE_FIELDS ct.

(** [h'] differs from [h] at most in the attribute dictionaries of
    providers: no object appears or goes, none changes its class, and an
    object that is not a provider is as it was. *)
Definition only_provider_attrs (h h' : heap) : Prop :=
  forall l,
    h' !! l = h !! l \/
    exists c a a',
      h !! l = Some (ProviderObj c a) /\ h' !! l = Some (ProviderObj c a').

(** The value that a call leaves for the parameter [p] when it passes the
    keyword arguments [kwargs]: the keyword's, else the default. *)
Definition explicit_or_default (kwargs : gmap string value) (p : param)
  : option value :=
  match kwargs !! p_name p with
  | Some v => Some v
  | None => p_default p
  end.

(** [functools.partial(_inject, squeeze_none=s)], which [inject] returns
    when it is given no function, called on [func]. *)
Definition apply_factory (squeeze_none : bool) (func : loc) (h : heap)
  : result loc * heap :=
  Inject._inject func squeeze_none h.

(** More example stores. *)
Module MoreExamples.

(** [h_patch] with a provider of the base class at 3, as
    [Provider.__init__] leaves it, and an object at 4 whose class did not
    run [Provider.__init__]: it has no [_override]. *)
Definition h_base : heap :=
  <[4 := ProviderObj Examples.Static {[ "_value" := VInt 1 ]}]>
    (<[3 := Provider.__init__ Provider_class]> Examples.h_patch).

Definition set_body (v : value) (h : heap) : result unit * heap :=
  (Ok tt, Provider.set 1 v h).

End MoreExamples.

(** * Properties *)

(** ** The store *)

Section Store.

Implicit Types (h : heap) (l p : loc) (v : value) (n : string).

Lemma setattr_lookup_ne l l' n v h :
  l ≠ l' -> setattr l n v h !! l' = h !! l'.
Proof.
  intros Hne. unfold setattr. destruct (h !! l); [|done].
  by rewrite lookup_insert_ne.
Qed.

Lemma setattr_lookup_eq l n v h :
  setattr l n v h !! l =
  (fun o => with_attrs o (<[n := v]> (obj_attrs o))) <$> h !! l.
Proof.
  unfold setattr. destruct (h !! l) eqn:E; simpl.
  - by rewrite lookup_insert_eq.
  - by rewrite E.
Qed.

Lemma setattr_provider l n v h c a :
  h !! l = Some (ProviderObj c a) ->
  setattr l n v h !! l = Some (ProviderObj c (<[n := v]> a)).
Proof. intros E. by rewrite setattr_lookup_eq, E. Qed.

Lemma isinstance_SentinelClass_setattr l n v h x :
  isinstance_SentinelClass (setattr l n v h) x = isinstance_SentinelClass h x.
Proof.
  destruct x as [| | | |l']; try done. simpl.
  destruct (decide (l = l')) as [<-|Hne].
  - rewrite setattr_lookup_eq. by destruct (h !! l) as [[]|].
  - by rewrite setattr_lookup_ne.
Qed.

Lemma isinstance_Provider_setattr l n v h x :
  isinstance_Provider (setattr l n v h) x = isinstance_Provider h x.
Proof.
  destruct x as [| | | |l']; try done. simpl.
  destruct (decide (l = l')) as [<-|Hne].
  - rewrite setattr_lookup_eq. by destruct (h !! l) as [[]|].
  - by rewrite setattr_lookup_ne.
Qed.

Lemma is_dataclass_setattr l n v h x :
  is_dataclass (setattr l n v h) x = is_dataclass h x.
Proof.
  destruct x as [| | | |l']; try done. simpl.
  destruct (decide (l = l')) as [<-|Hne].
  - rewrite setattr_lookup_eq. by destruct (h !! l) as [[]|].
  - by rewrite setattr_lookup_ne.
Qed.

Lemma getattr_setattr_provider l n v h c a m :
  h !! l = Some (ProviderObj c a) ->
  getattr (setattr l n v h) l m = if decide (n = m) then Some v else a !! m.
Proof.
  intros E. unfold getattr, attrs_at.
  rewrite (setattr_provider _ _ _ _ _ _ E). simpl.
  by rewrite lookup_insert.
Qed.

Lemma getattr_setattr_ne l l' n v h m :
  l ≠ l' -> getattr (setattr l n v h) l' m = getattr h l' m.
Proof.
  intros Hne. unfold getattr, attrs_at. by rewrite setattr_lookup_ne.
Qed.

Lemma isinstance_sentinel h : module_loaded h -> isinstance_SentinelClass h sentinel = true.
Proof. unfold module_loaded. intros E. simpl. by rewrite E. Qed.

(** An instance of [_SentinelClass] is not a provider. *)
Lemma sentinel_not_provider h v :
  isinstance_SentinelClass h v = true -> isinstance_Provider h v = false.
Proof.
  destruct v as [| | | |l]; try done. simpl. by destruct (h !! l) as [[]|].
Qed.

End Store.

(** ** Provider: set, get, patch *)

Section ProviderFacts.

Implicit Types (h : heap) (p : loc) (v : value).

Lemma set_not_sentinel h p v :
  isinstance_SentinelClass h v = false ->
  Provider.set p v h = setattr p "_override" v h.
Proof. unfold Provider.set. by intros ->. Qed.

Lemma set_sentinel h p v :
  isinstance_SentinelClass h v = true -> Provider.set p v h = h.
Proof. unfold Provider.set. by intros ->. Qed.

Lemma get_override h p o :
  getattr h p "_override" = Some o ->
  isinstance_SentinelClass h o = false ->
  Provider.get h p = Ok o.
Proof. unfold Provider.get. by intros -> ->. Qed.

(** C7: after [P.set(v)] with [v] not a sentinel, [P.get()] is [v]; with a
    sentinel, and so with [sentinel] itself, [set] leaves the store as it
    was. *)
Theorem set_then_get h p c a v :
  h !! p = Some (ProviderObj c a) ->
  (isinstance_SentinelClass h v = false ->
     Provider.get (Provider.set p v h) p = Ok v) /\
  (isinstance_SentinelClass h v = true -> Provider.set p v h = h) /\
  (module_loaded h -> Provider.set p sentinel h = h).
Proof.
  intros Hp. split; [|split].
  - intros Hv. rewrite set_not_sentinel by done.
    apply get_override.
    + rewrite (getattr_setattr_provider _ _ _ _ _ _ _ Hp).
      by rewrite decide_True.
    + by rewrite isinstance_SentinelClass_setattr.
  - apply set_sentinel.
  - intros Hm. apply set_sentinel, isinstance_sentinel, Hm.
Qed.

Lemma set_then_get_witness :
  Provider.get (Provider.set 1 (VInt 5) Examples.h_patch) 1 = Ok (VInt 5) /\
  Provider.set 1 sentinel Examples.h_patch = Examples.h_patch.
Proof.
  destruct (set_then_get Examples.h_patch 1 _ _ (VInt 5) eq_refl)
    as (Hget & _ & Hs).
  split; [apply Hget; reflexivity | apply Hs; reflexivity].
Defined.

End ProviderFacts.

Section PatchFacts.

Implicit Types (h : heap) (p : loc) (v : value).
Implicit Types (body : heap -> result unit * heap).

Lemma patch_start_sentinel h p v :
  isinstance_SentinelClass h v = true ->
  Provider.patch_start p v h = (Ok Provider.AtYield94, h).
Proof. unfold Provider.patch_start. by intros ->. Qed.

Lemma patch_start_value h p v o :
  isinstance_SentinelClass h v = false ->
  getattr h p "_override" = Some o ->
  Provider.patch_start p v h =
    (Ok (Provider.AtYield98 o), setattr p "_override" v h).
Proof. unfold Provider.patch_start. by intros -> ->. Qed.

Lemma with_patch_sentinel h p v body :
  isinstance_SentinelClass h v = true ->
  Provider.with_patch p v body h = body h.
Proof.
  intros Hv. unfold Provider.with_patch.
  rewrite patch_start_sentinel by done.
  by destruct (body h) as [[[]|e] h2].
Qed.

(** When the body ends normally, the override saved on entry is back. *)
Lemma with_patch_normal_exit h p c a v o body h2 c2 a2 :
  h !! p = Some (ProviderObj c a) ->
  a !! "_override" = Some o ->
  isinstance_SentinelClass h v = false ->
  body (setattr p "_override" v h) = (Ok tt, h2) ->
  h2 !! p = Some (ProviderObj c2 a2) ->
  exists h', Provider.with_patch p v body h = (Ok tt, h') /\
             getattr h' p "_override" = Some o.
Proof.
  intros Hp Ho Hv Hb Hp2. unfold Provider.with_patch.
  rewrite (patch_start_value h p v o Hv)
    by (unfold getattr, attrs_at; by rewrite Hp).
  rewrite Hb. simpl. eexists; split; [done|].
  rewrite (getattr_setattr_provider _ _ _ _ _ _ _ Hp2).
  by rewrite decide_True.
Qed.

(** When the body raises, the store is the one the body left: the
    assignment after the [yield] is not run. *)
Lemma with_patch_raise h p v o body e h2 :
  isinstance_SentinelClass h v = false ->
  getattr h p "_override" = Some o ->
  body (setattr p "_override" v h) = (Raise e, h2) ->
  Provider.with_patch p v body h = (Raise e, h2).
Proof.
  intros Hv Ho Hb. unfold Provider.with_patch.
  rewrite (patch_start_value h p v o Hv Ho). by rewrite Hb.
Qed.

(** C1: a body that raises leaves the patched value in place.  Before
    the scope [get()] is [10]; the scope patches [2] and its body raises;
    after it [get()] is [2]. *)
Theorem patch_override_outlives_failed_scope :
  Provider.get Examples.h_patch 1 = Ok (VInt 10) /\
  exists h',
    Provider.with_patch 1 (VInt 2) Examples.failing_body Examples.h_patch
      = (Raise (UserError "boom"), h') /\
    Provider.get h' 1 = Ok (VInt 2).
Proof.
  split; [reflexivity|].
  eexists. split.
  - eapply with_patch_raise; reflexivity.
  - reflexivity.
Qed.

(** C8: [patch(sentinel)] saves nothing and restores nothing: the
    generator stops at its first [yield] with the store untouched, both
    ways out of it leave the store alone, so the scope is its body, and
    [get()] on entry is [get()] before. *)
Theorem patch_sentinel_is_noop h p body :
  module_loaded h ->
  Provider.patch_start p sentinel h = (Ok Provider.AtYield94, h) /\
  (forall h2, Provider.patch_next p Provider.AtYield94 h2 = h2) /\
  (forall e h2, Provider.patch_throw p Provider.AtYield94 e h2 = (e, h2)) /\
  Provider.with_patch p sentinel body h = body h /\
  (forall fr h1, Provider.patch_start p sentinel h = (Ok fr, h1) ->
     Provider.get h1 p = Provider.get h p /\
     forall h2, Provider.get (Provider.patch_next p fr h2) p = Provider.get h2 p).
Proof.
  intros Hm. pose proof (isinstance_sentinel h Hm) as Hs.
  repeat split; try done.
  - by apply patch_start_sentinel.
  - by apply with_patch_sentinel.
  - rewrite patch_start_sentinel in H by done. congruence.
  - rewrite patch_start_sentinel in H by done.
    injection H as <- <-. done.
Qed.

Lemma patch_sentinel_is_noop_witness :
  Provider.with_patch 1 sentinel Examples.failing_body Examples.h_patch
    = (Raise (UserError "boom"), Examples.h_patch) /\
  Provider.with_patch 1 sentinel Examples.quiet_body Examples.h_patch
    = (Ok tt, Examples.h_patch).
Proof.
  split.
  - destruct (patch_sentinel_is_noop Examples.h_patch 1 Examples.failing_body
                eq_refl) as (_ & _ & _ & H & _).
    rewrite H. reflexivity.
  - destruct (patch_sentinel_is_noop Examples.h_patch 1 Examples.quiet_body
                eq_refl) as (_ & _ & _ & H & _).
    rewrite H. reflexivity.
Defined.

End PatchFacts.

(** ** The "not passed" test *)

Section NotPassed.

Implicit Types (h : heap) (p : loc) (v : value).

Lemma filtered_args_default h args v :
  v ∈ Inject.filtered_args false h args <->
  isinstance_SentinelClass h v = false /\ v ∈ args.
Proof. unfold Inject.filtered_args. simpl. by rewrite list_elem_of_filter. Qed.

Lemma filtered_args_squeeze h args v :
  v ∈ Inject.filtered_args true h args <-> v ≠ VNone /\ v ∈ args.
Proof.
  unfold Inject.filtered_args. simpl. rewrite list_elem_of_filter.
  destruct v; simpl; intuition congruence.
Qed.

Lemma filtered_kwargs_default h kwargs k v :
  Inject.filtered_kwargs false h kwargs !! k = Some v <->
  kwargs !! k = Some v /\ isinstance_SentinelClass h v = false.
Proof.
  unfold Inject.filtered_kwargs. simpl. by rewrite map_lookup_filter_Some.
Qed.

Lemma filtered_kwargs_squeeze h kwargs k v :
  Inject.filtered_kwargs true h kwargs !! k = Some v <->
  kwargs !! k = Some v /\ v ≠ VNone.
Proof.
  unfold Inject.filtered_kwargs. simpl. rewrite map_lookup_filter_Some.
  destruct v; simpl; intuition congruence.
Qed.

(** C5 as stated fails: a second instance of [_SentinelClass], which is
    not the object [sentinel], is "not passed" for [set], for [patch] and
    for the filter of the default mode. *)
Lemma second_sentinel_instance_counts_as_not_passed :
  VRef 2 ≠ sentinel /\ is_ (VRef 2) sentinel = false /\
  Provider.get Examples.h_two 1 = Ok (VInt 10) /\
  Provider.get (Provider.set 1 (VRef 2) Examples.h_two) 1 = Ok (VInt 10) /\
  Provider.patch_start 1 (VRef 2) Examples.h_two
    = (Ok Provider.AtYield94, Examples.h_two) /\
  Inject.filtered_args false Examples.h_two [VRef 2; VInt 3] = [VInt 3].
Proof. repeat split; try reflexivity. discriminate. Qed.

(** C5, amended: the test is membership in [_SentinelClass].  [set]
    skips exactly the instances of the class and installs any other
    value; [patch] takes its pass-through branch exactly for them; the
    filter of the default mode drops exactly them; and [sentinel] is
    one of them. *)
Theorem not_passed_is_class_membership h p c a o v args :
  h !! p = Some (ProviderObj c a) ->
  a !! "_override" = Some o ->
  (isinstance_SentinelClass h v = true -> Provider.set p v h = h) /\
  (isinstance_SentinelClass h v = false ->
     getattr (Provider.set p v h) p "_override" = Some v) /\
  (isinstance_SentinelClass h v = true <->
     (Provider.patch_start p v h).1 = Ok Provider.AtYield94) /\
  (v ∈ args ->
     (v ∈ Inject.filtered_args false h args <->
      isinstance_SentinelClass h v = false)) /\
  (module_loaded h -> isinstance_SentinelClass h sentinel = true).
Proof.
  intros Hp Ho. split; [apply set_sentinel|]. split; [|split; [|split]].
  - intros Hv. rewrite set_not_sentinel by done.
    rewrite (getattr_setattr_provider _ _ _ _ _ _ _ Hp).
    by rewrite decide_True.
  - split.
    + intros Hv. by rewrite patch_start_sentinel.
    + destruct (isinstance_SentinelClass h v) eqn:Hv; [done|].
      rewrite (patch_start_value h p v o Hv)
        by (unfold getattr, attrs_at; by rewrite Hp).
      discriminate.
  - intros Hin. rewrite filtered_args_default. tauto.
  - apply isinstance_sentinel.
Qed.

Lemma not_passed_is_class_membership_witness :
  Provider.set 1 (VRef 2) Examples.h_two = Examples.h_two /\
  getattr (Provider.set 1 (VInt 5) Examples.h_two) 1 "_override"
    = Some (VInt 5) /\
  isinstance_SentinelClass Examples.h_two sentinel = true.
Proof.
  split; [|split].
  - apply (not_passed_is_class_membership Examples.h_two 1 _ _ (VInt 10)
             (VRef 2) [] eq_refl eq_refl). reflexivity.
  - apply (not_passed_is_class_membership Examples.h_two 1 _ _ (VInt 10)
             (VInt 5) [] eq_refl eq_refl). reflexivity.
  - apply (not_passed_is_class_membership Examples.h_two 1 _ _ (VInt 10)
             (VInt 5) [] eq_refl eq_refl). reflexivity.
Defined.

End NotPassed.

(** ** Allocation of a function object *)

Section Alloc.

Context (h : heap) (w : loc) (c : code) (d : gmap string value).
Context (Hfresh : h !! w = None).

Local Abbreviation h' := (<[w := FunctionObj c d]> h).

Lemma isinstance_SentinelClass_alloc v :
  isinstance_SentinelClass h' v = isinstance_SentinelClass h v.
Proof.
  destruct v as [| | | |l]; try done. simpl.
  destruct (decide (w = l)) as [<-|Hne].
  - by rewrite lookup_insert_eq, Hfresh.
  - by rewrite lookup_insert_ne.
Qed.

Lemma isinstance_Provider_alloc v :
  isinstance_Provider h' v = isinstance_Provider h v.
Proof.
  destruct v as [| | | |l]; try done. simpl.
  destruct (decide (w = l)) as [<-|Hne].
  - by rewrite lookup_insert_eq, Hfresh.
  - by rewrite lookup_insert_ne.
Qed.

Lemma get_alloc p : p ≠ w -> Provider.get h' p = Provider.get h p.
Proof.
  intros Hne. unfold Provider.get, Provider._provide, getattr, attrs_at.
  rewrite lookup_insert_ne by done.
  destruct (h !! p) as [o|]; [|done].
  destruct (obj_attrs o !! "_override") as [ov|]; [|done].
  by rewrite isinstance_SentinelClass_alloc.
Qed.

Lemma resolve_alloc a : Inject.resolve h' a = Inject.resolve h a.
Proof.
  destruct a as [| | | |l]; try done. unfold Inject.resolve.
  rewrite isinstance_Provider_alloc.
  destruct (isinstance_Provider h (VRef l)) eqn:E; [|done].
  apply get_alloc. intros ->. simpl in E. by rewrite Hfresh in E.
Qed.

Lemma _inject_args_alloc args :
  Inject._inject_args h' args = Inject._inject_args h args.
Proof.
  induction args as [|a args IH]; [done|]. simpl.
  by rewrite resolve_alloc, IH.
Qed.

Lemma _inject_kwargs_alloc kwargs :
  Inject._inject_kwargs h' kwargs = Inject._inject_kwargs h kwargs.
Proof.
  induction kwargs as [|[k a] kwargs IH]; [done|]. simpl.
  by rewrite resolve_alloc, IH.
Qed.

Lemma wrapper_alloc f sig s args kwargs :
  Inject.wrapper f sig s h' args kwargs = Inject.wrapper f sig s h args kwargs.
Proof.
  unfold Inject.wrapper.
  assert (Inject.filtered_args s h' args = Inject.filtered_args s h args) as ->.
  { unfold Inject.filtered_args. destruct s; simpl; [done|].
    apply list_filter_iff. intros x.
    by rewrite isinstance_SentinelClass_alloc. }
  assert (Inject.filtered_kwargs s h' kwargs = Inject.filtered_kwargs s h kwargs)
    as ->.
  { unfold Inject.filtered_kwargs. destruct s; simpl; [done|].
    apply map_filter_ext. intros i x _. simpl.
    by rewrite isinstance_SentinelClass_alloc. }
  destruct (Inspect.bind_partial _ _ _) as [arguments|e]; [|done]. simpl.
  by rewrite _inject_args_alloc, _inject_kwargs_alloc.
Qed.

End Alloc.

(** ** The injection wrapper *)

Section InjectFacts.

Implicit Types (h : heap) (f w p : loc) (v : value) (sig : signature).

(** Wrapping a function that does not carry the mark builds the closure
    at a new location. *)
Lemma _inject_new h f sig d s :
  h !! f = Some (FunctionObj (Def sig) d) ->
  not_injected d ->
  let w := fresh (dom h) in
  h !! w = None /\
  Inject._inject f s h =
    (Ok w, <[w := FunctionObj (Closure f sig s)
                    (<["_is_injected" := VBool true]>
                       (<["__wrapped__" := VRef f]> d))]> h).
Proof.
  intros Hf Hd w. split.
  - apply not_elem_of_dom, is_fresh.
  - unfold Inject._inject, getattr, attrs_at, Inject.inspect_signature.
    rewrite Hf. simpl. unfold not_injected in Hd. by rewrite Hd.
Qed.

(** A call of the closure runs the wrapper on the store as it was before
    the closure was allocated. *)
Lemma call_new_closure h f sig d s w h' args kwargs :
  h !! f = Some (FunctionObj (Def sig) d) ->
  not_injected d ->
  Inject._inject f s h = (Ok w, h') ->
  Inject.call h' w args kwargs = Inject.wrapper f sig s h args kwargs.
Proof.
  intros Hf Hd Hi.
  destruct (_inject_new h f sig d s Hf Hd) as [Hw Heq].
  rewrite Heq in Hi. injection Hi as <- <-.
  unfold Inject.call. rewrite lookup_insert_eq.
  by apply wrapper_alloc.
Qed.

(** The wrapper, once the filters and the binding are known. *)
Lemma wrapper_bound f sig s h args kwargs fargs fkwargs arguments bargs bkwargs :
  Inject.filtered_args s h args = fargs ->
  Inject.filtered_kwargs s h kwargs = fkwargs ->
  Inspect.bind_partial sig fargs fkwargs = Ok arguments ->
  Inspect.bound_args sig (Inspect.apply_defaults sig arguments) = bargs ->
  Inspect.bound_kwargs false sig (Inspect.apply_defaults sig arguments)
    = bkwargs ->
  Inject.wrapper f sig s h args kwargs =
    (a <- Inject._inject_args h bargs ;
     k <- Inject._inject_kwargs h bkwargs ;
     Ok (Invoke f a k)).
Proof. intros <- <- Hb <- <-. unfold Inject.wrapper. by rewrite Hb. Qed.

Lemma resolve_resolved h a v : Inject.resolve h a = Ok v <-> resolved h a v.
Proof.
  unfold resolved, Inject.resolve.
  destruct a as [| | | |l]; simpl; try (split; congruence).
  destruct (h !! l) as [[]|]; try (split; congruence).
  split; [eauto|]. by intros (? & [= <-] & ?).
Qed.

Lemma _inject_args_resolved h args vs :
  Inject._inject_args h args = Ok vs <-> Forall2 (resolved h) args vs.
Proof.
  revert vs. induction args as [|a args IH]; intros vs; simpl.
  - split; [intros [= <-]; constructor | by inversion 1].
  - split.
    + destruct (Inject.resolve h a) as [v|] eqn:Hr; [|done]. simpl.
      destruct (Inject._inject_args h args) as [vs'|]; [|done]. simpl.
      intros [= <-]. constructor; [by apply resolve_resolved | by apply IH].
    + inversion 1 as [|? v ? vs' Hv Hvs]; subst.
      apply resolve_resolved in Hv. apply IH in Hvs.
      by rewrite Hv, Hvs.
Qed.

Lemma _inject_kwargs_resolved h kwargs kvs :
  Inject._inject_kwargs h kwargs = Ok kvs <->
  Forall2 (fun ka kv => ka.1 = kv.1 /\ resolved h ka.2 kv.2) kwargs kvs.
Proof.
  revert kvs. induction kwargs as [|[k a] kwargs IH]; intros kvs; simpl.
  - split; [intros [= <-]; constructor | by inversion 1].
  - split.
    + destruct (Inject.resolve h a) as [v|] eqn:Hr; [|done]. simpl.
      destruct (Inject._inject_kwargs h kwargs) as [kvs'|]; [|done]. simpl.
      intros [= <-]. constructor; [|by apply IH].
      split; [done | by apply resolve_resolved].
    + inversion 1 as [|? [k' v] ? kvs' [Hk Hv] Hvs]; subst. simpl in *.
      apply resolve_resolved in Hv. apply IH in Hvs.
      rewrite Hv, Hvs. simpl. by rewrite Hk.
Qed.

End InjectFacts.

Section InjectClaims.

Implicit Types (h : heap) (f w p : loc) (v : value) (sig : signature).

(** Every argument that the binding leaves in [bind.args] and
    [bind.kwargs] reaches the function resolved, and the call goes
    through exactly when the binding and every [get()] do. *)
Lemma wrapper_resolves_bound_arguments f sig s h args kwargs inv :
  Inject.wrapper f sig s h args kwargs = Ok inv <->
  exists arguments,
    Inspect.bind_partial sig (Inject.filtered_args s h args)
                         (Inject.filtered_kwargs s h kwargs) = Ok arguments /\
    inv_func inv = f /\
    Forall2 (resolved h)
      (Inspect.bound_args sig (Inspect.apply_defaults sig arguments))
      (inv_args inv) /\
    Forall2 (fun ka kv => ka.1 = kv.1 /\ resolved h ka.2 kv.2)
      (Inspect.bound_kwargs false sig (Inspect.apply_defaults sig arguments))
      (inv_kwargs inv).
Proof.
  unfold Inject.wrapper. split.
  - destruct (Inspect.bind_partial _ _ _) as [arguments|]; [|done]. simpl.
    destruct (Inject._inject_args _ _) as [a|] eqn:Ha; [|done]. simpl.
    destruct (Inject._inject_kwargs _ _) as [k|] eqn:Hk; [|done]. simpl.
    intros [= <-]. exists arguments. simpl.
    apply _inject_args_resolved in Ha. apply _inject_kwargs_resolved in Hk.
    done.
  - intros (arguments & -> & Hf & Ha & Hk). simpl.
    apply _inject_args_resolved in Ha. apply _inject_kwargs_resolved in Hk.
    rewrite Ha, Hk. simpl. destruct inv; simpl in *. by subst.
Qed.

Ltac run_wrapper :=
  erewrite wrapper_bound;
  [ | vm_compute; reflexivity | vm_compute; reflexivity
    | vm_compute; reflexivity | vm_compute; reflexivity
    | vm_compute; reflexivity ];
  cbn [Inject._inject_args Inject._inject_kwargs Inject.resolve bind].

(** C3: [f(a = Provider_A, b = 2)] wrapped in the default mode.  A call
    without arguments calls [f] with [Provider_A.get()] and [2]; a call
    with [a = 5], by keyword or by position, calls it with [5] and [2];
    Python binds these to [a] and [b].  For every wrapped function and
    every call, each bound argument that is a provider arrives as its
    [get()] and every other one as it is. *)
Theorem inject_resolves_provider_defaults h f pa vA :
  h !! f = Some (FunctionObj (Def (Examples.sig_ab pa)) ∅) ->
  isinstance_Provider h (VRef pa) = true ->
  Provider.get h pa = Ok vA ->
  exists w h',
    Inject._inject f false h = (Ok w, h') /\
    Inject.call h' w [] ∅ = Ok (Invoke f [vA; VInt 2] []) /\
    Inject.call h' w [] {["a" := VInt 5]}
      = Ok (Invoke f [VInt 5; VInt 2] []) /\
    Inject.call h' w [VInt 5] ∅ = Ok (Invoke f [VInt 5; VInt 2] []) /\
    Inspect.bind_call (Examples.sig_ab pa) [vA; VInt 2] []
      = Ok (<["a" := vA]> {["b" := VInt 2]}) /\
    Inspect.bind_call (Examples.sig_ab pa) [VInt 5; VInt 2] []
      = Ok (<["a" := VInt 5]> {["b" := VInt 2]}) /\
    forall sig s args kwargs inv,
      Inject.wrapper f sig s h args kwargs = Ok inv ->
      exists arguments,
        Inspect.bind_partial sig (Inject.filtered_args s h args)
                             (Inject.filtered_kwargs s h kwargs)
          = Ok arguments /\
        Forall2 (resolved h)
          (Inspect.bound_args sig (Inspect.apply_defaults sig arguments))
          (inv_args inv) /\
        Forall2 (fun ka kv => ka.1 = kv.1 /\ resolved h ka.2 kv.2)
          (Inspect.bound_kwargs false sig
             (Inspect.apply_defaults sig arguments))
          (inv_kwargs inv).
Proof.
  intros Hf Hpa Hget.
  assert (not_injected ∅) as Hd by reflexivity.
  destruct (_inject_new h f _ ∅ false Hf Hd) as [Hw Heq].
  eexists _, _. split; [exact Heq|].
  pose proof (fun args kwargs =>
    call_new_closure h f _ ∅ false _ _ args kwargs Hf Hd Heq) as Hcall.
  rewrite !Hcall. clear Hcall.
  split; [run_wrapper; by rewrite Hpa, Hget|].
  split; [by run_wrapper|].
  split; [by run_wrapper|].
  split; [vm_compute; reflexivity|].
  split; [vm_compute; reflexivity|].
  intros sig s args kwargs inv Hcall.
  apply wrapper_resolves_bound_arguments in Hcall
    as (arguments & ? & ? & ? & ?).
  by exists arguments.
Qed.

Lemma inject_resolves_provider_defaults_witness :
  exists w h',
    Inject._inject 2 false Examples.h_inject = (Ok w, h') /\
    Inject.call h' w [] ∅ = Ok (Invoke 2 [VInt 1; VInt 2] []) /\
    Inject.call h' w [] {["a" := VInt 5]}
      = Ok (Invoke 2 [VInt 5; VInt 2] []).
Proof.
  destruct (inject_resolves_provider_defaults Examples.h_inject 2 1 (VInt 1)
              eq_refl eq_refl eq_refl)
    as (w & h' & Hi & H0 & H5 & _).
  by exists w, h'.
Defined.

Lemma filtered_args_idemp s h args :
  Inject.filtered_args s h (Inject.filtered_args s h args)
    = Inject.filtered_args s h args.
Proof.
  unfold Inject.filtered_args. destruct s; simpl;
    rewrite list_filter_filter; apply list_filter_iff; tauto.
Qed.

(** The arguments that the filter drops are gone before the binding: a
    call is the call with the surviving positional arguments alone. *)
Lemma wrapper_filtered_args f sig s h args kwargs :
  Inject.wrapper f sig s h args kwargs
    = Inject.wrapper f sig s h (Inject.filtered_args s h args) kwargs.
Proof. unfold Inject.wrapper. by rewrite filtered_args_idemp. Qed.

(** C4: the two filters.  In the default mode the instances of the
    sentinel class are dropped, [sentinel] among them, and [None] stays;
    with [squeeze_none] the [None]s are dropped and [sentinel] stays.
    For [f(a = Provider_A, b = 2)]: [a = None] under [squeeze_none] calls
    [f] with [Provider_A.get()], and in the default mode with [None];
    under [squeeze_none] a keyword passed as [None] is a keyword not
    passed. *)
Theorem filter_by_mode h f pa vA w0 d0 w1 d1 args kwargs :
  module_loaded h ->
  isinstance_Provider h (VRef pa) = true ->
  Provider.get h pa = Ok vA ->
  h !! w0 = Some (FunctionObj (Closure f (Examples.sig_ab pa) false) d0) ->
  h !! w1 = Some (FunctionObj (Closure f (Examples.sig_ab pa) true) d1) ->
  (forall v, v ∈ Inject.filtered_args false h args <->
             isinstance_SentinelClass h v = false /\ v ∈ args) /\
  (forall k v, Inject.filtered_kwargs false h kwargs !! k = Some v <->
               kwargs !! k = Some v /\ isinstance_SentinelClass h v = false) /\
  (sentinel ∉ Inject.filtered_args false h args) /\
  (VNone ∈ args -> VNone ∈ Inject.filtered_args false h args) /\
  (forall v, v ∈ Inject.filtered_args true h args <-> v ≠ VNone /\ v ∈ args) /\
  (forall k v, Inject.filtered_kwargs true h kwargs !! k = Some v <->
               kwargs !! k = Some v /\ v ≠ VNone) /\
  (sentinel ∈ args -> sentinel ∈ Inject.filtered_args true h args) /\
  Inject.call h w1 [] {["a" := VNone]} = Ok (Invoke f [vA; VInt 2] []) /\
  Inject.call h w1 [VNone] ∅ = Ok (Invoke f [vA; VInt 2] []) /\
  Inject.call h w0 [] {["a" := VNone]} = Ok (Invoke f [VNone; VInt 2] []) /\
  Inject.call h w0 [VNone] ∅ = Ok (Invoke f [VNone; VInt 2] []) /\
  (forall sig k,
     Inject.wrapper f sig true h args (<[k := VNone]> kwargs)
       = Inject.wrapper f sig true h args (delete k kwargs)).
Proof.
  intros Hm Hpa Hget Hw0 Hw1.
  pose proof (isinstance_sentinel h Hm) as Hs.
  split; [apply filtered_args_default|].
  split; [apply filtered_kwargs_default|].
  split; [rewrite filtered_args_default; intros [? _]; congruence|].
  split; [intros ?; by apply filtered_args_default|].
  split; [apply filtered_args_squeeze|].
  split; [apply filtered_kwargs_squeeze|].
  split; [intros ?; by apply filtered_args_squeeze|].
  unfold Inject.call. rewrite Hw0, Hw1.
  split; [run_wrapper; by rewrite Hpa, Hget|].
  split; [run_wrapper; by rewrite Hpa, Hget|].
  split; [by run_wrapper|].
  split; [by run_wrapper|].
  intros sig k. unfold Inject.wrapper, Inject.filtered_kwargs. simpl.
  rewrite map_filter_insert_False by (simpl; congruence). done.
Qed.

Lemma filter_by_mode_witness :
  Inject.call Examples.h_wrapped 4 [] {["a" := VNone]}
    = Ok (Invoke 2 [VInt 1; VInt 2] []) /\
  Inject.call Examples.h_wrapped 3 [] {["a" := VNone]}
    = Ok (Invoke 2 [VNone; VInt 2] []).
Proof.
  destruct (filter_by_mode Examples.h_wrapped 2 1 (VInt 1) 3 _ 4 _ [] ∅
              eq_refl eq_refl eq_refl eq_refl eq_refl)
    as (_ & _ & _ & _ & _ & _ & _ & H1 & _ & H0 & _).
  by split.
Defined.

(** C10: positional arguments are filtered before they are bound, so a
    dropped one gives its slot to the next.  For [f(a, b)] called as
    [f(sentinel, x)] in the default mode, or as [f(None, x)] under
    [squeeze_none], the binding is [a = x] and nothing for [b]; the call
    is the call [f(x)]. *)
Theorem dropped_positional_shifts_left h f da db x :
  module_loaded h ->
  (isinstance_SentinelClass h x = false ->
     Inject.filtered_args false h [sentinel; x] = [x] /\
     Inspect.bind_partial (Examples.sig_f da db)
         (Inject.filtered_args false h [sentinel; x])
         (Inject.filtered_kwargs false h ∅) = Ok {["a" := x]} /\
     Inject.wrapper f (Examples.sig_f da db) false h [sentinel; x] ∅
       = Inject.wrapper f (Examples.sig_f da db) false h [x] ∅ /\
     forall vx, resolved h x vx ->
       Inject.wrapper f (Examples.sig_f da None) false h [sentinel; x] ∅
         = Ok (Invoke f [vx] [])) /\
  (x ≠ VNone ->
     Inject.filtered_args true h [VNone; x] = [x] /\
     Inspect.bind_partial (Examples.sig_f da db)
         (Inject.filtered_args true h [VNone; x])
         (Inject.filtered_kwargs true h ∅) = Ok {["a" := x]} /\
     Inject.wrapper f (Examples.sig_f da db) true h [VNone; x] ∅
       = Inject.wrapper f (Examples.sig_f da db) true h [x] ∅ /\
     forall vx, resolved h x vx ->
       Inject.wrapper f (Examples.sig_f da None) true h [VNone; x] ∅
         = Ok (Invoke f [vx] [])).
Proof.
  intros Hm. pose proof (isinstance_sentinel h Hm) as Hs. split.
  - intros Hx.
    assert (Inject.filtered_args false h [sentinel; x] = [x]) as Hf.
    { unfold Inject.filtered_args. simpl.
      rewrite filter_cons_False by congruence.
      by rewrite filter_cons_True by done. }
    assert (Inject.filtered_kwargs false h ∅ = ∅) as Hk
      by (vm_compute; reflexivity).
    split; [done|]. split; [rewrite Hf, Hk; vm_compute; reflexivity|].
    split.
    + by rewrite wrapper_filtered_args, Hf.
    + intros vx Hvx. apply resolve_resolved in Hvx.
      erewrite wrapper_bound;
        [ | exact Hf | exact Hk | vm_compute; reflexivity
          | vm_compute; reflexivity | vm_compute; reflexivity ].
      cbn [Inject._inject_args Inject._inject_kwargs bind].
      by rewrite Hvx.
  - intros Hx.
    assert (Inject.filtered_args true h [VNone; x] = [x]) as Hf.
    { unfold Inject.filtered_args. simpl.
      rewrite filter_cons_False by (simpl; congruence).
      rewrite filter_cons_True; [done|]. by destruct x. }
    assert (Inject.filtered_kwargs true h ∅ = ∅) as Hk
      by (vm_compute; reflexivity).
    split; [done|]. split; [rewrite Hf, Hk; vm_compute; reflexivity|].
    split.
    + by rewrite wrapper_filtered_args, Hf.
    + intros vx Hvx. apply resolve_resolved in Hvx.
      erewrite wrapper_bound;
        [ | exact Hf | exact Hk | vm_compute; reflexivity
          | vm_compute; reflexivity | vm_compute; reflexivity ].
      cbn [Inject._inject_args Inject._inject_kwargs bind].
      by rewrite Hvx.
Qed.

Lemma dropped_positional_shifts_left_witness :
  Inspect.bind_partial (Examples.sig_f None None)
      (Inject.filtered_args false Examples.h_inject [sentinel; VInt 7])
      (Inject.filtered_kwargs false Examples.h_inject ∅)
    = Ok {["a" := VInt 7]} /\
  Inject.wrapper 2 (Examples.sig_f None None) true Examples.h_inject
      [VNone; VInt 7] ∅
    = Ok (Invoke 2 [VInt 7] []).
Proof.
  destruct (dropped_positional_shifts_left Examples.h_inject 2 None None
              (VInt 7) eq_refl) as [Hd Hs].
  split.
  - apply Hd. reflexivity.
  - apply Hs; [discriminate | reflexivity].
Defined.

(** C9: [_inject] on what [_inject] returned gives the same object back
    and leaves the store alone, whatever [squeeze_none] it is given; so
    does [inject]; and every call of the result of the second wrapping
    is the call of the result of the first. *)
Theorem inject_is_idempotent h0 f s w h s' :
  Inject._inject f s h0 = (Ok w, h) ->
  Inject._inject w s' h = (Ok w, h) /\
  (Inject.callable h0 (VRef f) = true ->
     Inject.inject (VRef w) s' h = (Ok (Wrapped w), h)) /\
  (forall w2 h2, Inject._inject w s' h = (Ok w2, h2) ->
     w2 = w /\ h2 = h /\
     forall args kwargs,
       Inject.call h2 w2 args kwargs = Inject.call h w args kwargs).
Proof.
  intros Hi.
  assert (Inject._inject w s' h = (Ok w, h) /\
          (Inject.callable h0 (VRef f) = true ->
           Inject.callable h (VRef w) = true)) as [Hagain Hc].
  { unfold Inject._inject in Hi.
    destruct (truthy (default (VBool false) (getattr h0 f "_is_injected")))
      eqn:Hflag.
    - injection Hi as <- <-. split; [|done].
      unfold Inject._inject. by rewrite Hflag.
    - destruct (Inject.inspect_signature h0 f) as [sig|e]; [|done].
      injection Hi as <- <-. split.
      + unfold Inject._inject, getattr, attrs_at.
        rewrite lookup_insert_eq. simpl. by rewrite lookup_insert_eq.
      + intros _. simpl. by rewrite lookup_insert_eq. }
  split; [exact Hagain|]. split.
  - intros Hf. unfold Inject.inject. simpl.
    specialize (Hc Hf). simpl in Hc.
    destruct (h !! w) as [[]|]; try done. by rewrite Hagain.
  - intros w2 h2. rewrite Hagain. by intros [= <- <-].
Qed.

Lemma inject_is_idempotent_witness :
  Inject._inject 3 true (Inject._inject 2 false Examples.h_inject).2
    = (Ok 3, (Inject._inject 2 false Examples.h_inject).2).
Proof.
  apply (inject_is_idempotent Examples.h_inject 2 false 3 _ true).
  vm_compute. reflexivity.
Defined.

End InjectClaims.

(** ** State fields *)

Section StateFields.

Implicit Types (h : heap) (c : pyclass) (f : string).
Implicit Types (a st : gmap string value).

Lemma foldl_union_bases (acc : gset string) (bases : list pyclass) f :
  f ∈ foldl (fun acc base => acc ∪ list_to_set (c_STATE_FIELDS base))
            acc bases <->
  f ∈ acc \/ exists b, b ∈ bases /\ f ∈ c_STATE_FIELDS b.
Proof.
  revert acc. induction bases as [|b bases IH]; intros acc; simpl.
  - split; [by left|]. intros [?|(b & Hb & _)]; [done|]. by inversion Hb.
  - rewrite IH, elem_of_union, elem_of_list_to_set. split.
    + intros [[?|?]|(b' & ? & ?)]; [by left| |].
      * right. exists b. split; [left|done].
      * right. exists b'. split; [by right|done].
    + intros [?|(b' & Hb' & ?)]; [by left; left|].
      apply elem_of_cons in Hb' as [->|?]; [by left; right|].
      right. by exists b'.
Qed.

(** The tuple that [__new__] stores is the union of its three sources. *)
Lemma new_STATE_FIELDS name bases own provide state_fields f :
  f ∈ c_STATE_FIELDS (ProviderMeta.__new__ name bases own provide state_fields)
  <->
  f ∈ state_fields \/ f ∈ default [] own \/
  exists b, b ∈ bases /\ f ∈ c_STATE_FIELDS b.
Proof.
  unfold ProviderMeta.__new__. simpl.
  rewrite elem_of_elements, elem_of_union, foldl_union_bases.
  rewrite !elem_of_list_to_set. tauto.
Qed.

Lemma new_STATE_FIELDS_NoDup name bases own provide state_fields :
  NoDup (c_STATE_FIELDS
           (ProviderMeta.__new__ name bases own provide state_fields)).
Proof. unfold ProviderMeta.__new__. simpl. apply NoDup_elements. Qed.

Lemma created_base c b :
  created c -> b ∈ c_bases c ->
  created b /\ c_STATE_FIELDS b ⊆ c_STATE_FIELDS c.
Proof.
  intros Hc Hb. destruct Hc as [name bases own provide kw Hbases].
  simpl in Hb. split.
  - by eapply Forall_forall in Hbases.
  - intros f Hf. apply new_STATE_FIELDS. right; right. by exists b.
Qed.

Lemma ancestor_STATE_FIELDS c anc :
  created c -> ancestor anc c -> c_STATE_FIELDS anc ⊆ c_STATE_FIELDS c.
Proof.
  intros Hc Hanc. induction Hanc as [c Hb|b c Hanc IH Hb].
  - by apply created_base.
  - destruct (created_base c b Hc Hb) as [Hcb Hsub].
    intros f Hf. apply Hsub, IH; done.
Qed.

Lemma Provider_subtype_override c :
  Provider_subtype c -> "_override" ∈ c_STATE_FIELDS c.
Proof.
  intros [Hc [->|Hanc]].
  - vm_compute. left.
  - apply (ancestor_STATE_FIELDS c Provider_class Hc Hanc).
    vm_compute. left.
Qed.

(** The exported mapping has exactly the listed fields, with the
    instance's values. *)
Lemma getstate_fields_Ok a fs st :
  Provider.getstate_fields a fs = Ok st ->
  dom st = list_to_set fs /\ forall f, f ∈ fs -> st !! f = a !! f.
Proof.
  revert st. induction fs as [|f0 fs IH]; intros st; simpl.
  - intros [= <-]. split; [by rewrite dom_empty_L|]. by inversion 1.
  - destruct (a !! f0) as [v|] eqn:Hf0; [|done].
    destruct (Provider.getstate_fields a fs) as [st'|]; [|done]. simpl.
    intros [= <-]. destruct (IH st' eq_refl) as [Hdom Hval]. split.
    + by rewrite dom_insert_L, Hdom.
    + intros f Hf. destruct (decide (f0 = f)) as [<-|Hne].
      * by rewrite lookup_insert_eq.
      * rewrite lookup_insert_ne by done. apply Hval.
        apply elem_of_cons in Hf as [?|?]; [congruence|done].
Qed.

Lemma getstate_fields_total a fs :
  (forall f, f ∈ fs -> is_Some (a !! f)) ->
  exists st, Provider.getstate_fields a fs = Ok st.
Proof.
  induction fs as [|f0 fs IH]; intros Ha; simpl; [by eexists|].
  destruct (Ha f0) as [v ->]; [left|].
  destruct IH as [st ->]; [intros f ?; apply Ha; by right|].
  simpl. by eexists.
Qed.

(** [__setstate__] with a mapping that has every listed field: the
    instance ends with the mapping's values there, and everything else
    is as before. *)
Lemma setstate_fields_Ok self st fs h c a :
  h !! self = Some (ProviderObj c a) ->
  (forall f, f ∈ fs -> is_Some (st !! f)) ->
  exists a',
    Provider.setstate_fields self st fs h
      = (Ok tt, <[self := ProviderObj c a']> h) /\
    (forall f, f ∈ fs -> a' !! f = st !! f) /\
    (forall f, f ∉ fs -> a' !! f = a !! f).
Proof.
  revert h a. induction fs as [|f0 fs IH]; intros h a Hself Hst; simpl.
  - exists a. rewrite insert_id by done. split; [done|].
    split; [by inversion 1|done].
  - destruct (Hst f0) as [v Hv]; [left|]. rewrite Hv.
    destruct (IH (setattr self f0 v h) (<[f0 := v]> a)) as (a' & Heq & Hin & Hout).
    { by apply setattr_provider. }
    { intros f ?. apply Hst. by right. }
    exists a'. split; [|split].
    + rewrite Heq. unfold setattr. rewrite Hself. simpl.
      by rewrite insert_insert_eq.
    + intros f Hf. destruct (decide (f ∈ fs)) as [?|Hnot]; [by apply Hin|].
      apply elem_of_cons in Hf as [->|?]; [|done].
      by rewrite Hout, lookup_insert_eq.
    + intros f Hf. apply not_elem_of_cons in Hf as [? ?].
      rewrite Hout by done. by rewrite lookup_insert_ne.
Qed.

Lemma isinstance_SentinelClass_update h l c a a' v :
  h !! l = Some (ProviderObj c a) ->
  isinstance_SentinelClass (<[l := ProviderObj c a']> h) v
    = isinstance_SentinelClass h v.
Proof.
  intros Hl. destruct v as [| | | |l']; try done. simpl.
  destruct (decide (l = l')) as [<-|Hne].
  - by rewrite lookup_insert_eq, Hl.
  - by rewrite lookup_insert_ne.
Qed.

(** C6: the tuple of a class created under [ProviderMeta] contains the
    tuple of every ancestor; it is the duplicate-free union of the
    [state_fields] argument, the class's own [STATE_FIELDS] and the
    tuples of the bases.  For [B] extending the provider class [A] with
    the one field [extra]: the state exported by a [B] instance has
    [A]'s fields and [extra], and, [_provide] reading state fields only,
    a [B] instance that imports it answers [get()] as the first one. *)
Theorem state_fields_accrete A extra provide h src a dst a' :
  let B := ProviderMeta.__new__ "B" [A] (Some [extra]) provide [] in
  Provider_subtype A ->
  state_determined B ->
  h !! src = Some (ProviderObj B a) ->
  (forall f, f ∈ c_STATE_FIELDS B -> is_Some (a !! f)) ->
  h !! dst = Some (ProviderObj B a') ->
  (forall c anc, created c -> ancestor anc c ->
     c_STATE_FIELDS anc ⊆ c_STATE_FIELDS c) /\
  (forall name bases own prov state_fields,
     NoDup (c_STATE_FIELDS
              (ProviderMeta.__new__ name bases own prov state_fields)) /\
     forall f,
       f ∈ c_STATE_FIELDS
             (ProviderMeta.__new__ name bases own prov state_fields) <->
       f ∈ state_fields \/ f ∈ default [] own \/
       exists b, b ∈ bases /\ f ∈ c_STATE_FIELDS b) /\
  exists st,
    Provider.__getstate__ h src = Ok st /\
    (forall f, f ∈ c_STATE_FIELDS A -> st !! f = a !! f /\ is_Some (st !! f)) /\
    (st !! extra = a !! extra /\ is_Some (st !! extra)) /\
    dom st = list_to_set (c_STATE_FIELDS B) /\
    exists h',
      Provider.__setstate__ dst st h = (Ok tt, h') /\
      Provider.get h' dst = Provider.get h src.
Proof.
  intros B HA Hdet Hsrc Hattrs Hdst.
  split; [apply ancestor_STATE_FIELDS|].
  split; [intros; split; [apply new_STATE_FIELDS_NoDup|apply new_STATE_FIELDS]|].
  assert (created B) as HB.
  { constructor. constructor; [apply HA|constructor]. }
  assert (c_STATE_FIELDS A ⊆ c_STATE_FIELDS B) as HAB.
  { apply ancestor_STATE_FIELDS; [done|]. constructor. simpl. left. }
  assert (extra ∈ c_STATE_FIELDS B) as Hextra.
  { apply new_STATE_FIELDS. right; left. simpl. left. }
  assert ("_override" ∈ c_STATE_FIELDS B) as Hov.
  { apply HAB, Provider_subtype_override, HA. }
  destruct (getstate_fields_total a (c_STATE_FIELDS B) Hattrs) as [st Hst].
  destruct (getstate_fields_Ok a _ st Hst) as [Hdom Hval].
  exists st. unfold Provider.__getstate__. rewrite Hsrc.
  split; [done|].
  split; [intros f Hf; rewrite Hval by (by apply HAB); split;
          [done | by apply Hattrs, HAB]|].
  split; [rewrite Hval by done; split; [done | by apply Hattrs]|].
  split; [done|].
  destruct (setstate_fields_Ok dst st (c_STATE_FIELDS B) h B a' Hdst)
    as (a'' & Hset & Hin & _).
  { intros f Hf. rewrite Hval by done. by apply Hattrs. }
  eexists. unfold Provider.__setstate__, class_of. rewrite Hdst.
  split; [exact Hset|].
  assert (forall f, f ∈ c_STATE_FIELDS B -> a'' !! f = a !! f) as Hagree.
  { intros f Hf. by rewrite Hin, Hval. }
  unfold Provider.get, Provider._provide, getattr, attrs_at.
  rewrite lookup_insert_eq, Hsrc. simpl. rewrite Hagree by done.
  destruct (a !! "_override") as [o|]; [|done].
  rewrite (isinstance_SentinelClass_update h dst B a' a'' o Hdst).
  destruct (isinstance_SentinelClass h o); simpl; [|done].
  by apply Hdet.
Qed.

Lemma B_state_determined : state_determined Examples.B.
Proof.
  intros a1 a2 Hagree. simpl. unfold Examples.B_provide.
  rewrite (Hagree "stamp"); [done|].
  apply new_STATE_FIELDS. right; left. simpl. left.
Qed.

Lemma state_fields_accrete_witness :
  exists st h',
    Provider.__getstate__ Examples.h_AB 1 = Ok st /\
    Provider.__setstate__ 2 st Examples.h_AB = (Ok tt, h') /\
    Provider.get h' 2 = Ok (VInt 7).
Proof.
  assert (Provider_subtype Examples.A) as HA.
  { split; [repeat constructor|]. right. constructor. simpl. left. }
  assert (forall f, f ∈ c_STATE_FIELDS Examples.B ->
                    is_Some (Examples.B_used !! f)) as Hattrs.
  { intros f Hf. vm_compute in Hf.
    repeat (apply elem_of_cons in Hf as [->|Hf]; [by eexists|]).
    by inversion Hf. }
  destruct (state_fields_accrete Examples.A "stamp" Examples.B_provide
              Examples.h_AB 1 Examples.B_used 2 Examples.B_fresh
              HA B_state_determined eq_refl Hattrs eq_refl)
    as (_ & _ & st & Hget & _ & _ & _ & h' & Hset & Heq).
  exists st, h'. split; [done|]. split; [done|]. by rewrite Heq.
Defined.

End StateFields.

(** ** Container synchronisation *)

Section SyncFacts.

Implicit Types (h : heap) (fd : field) (fs : list field) (l d t : loc).
Implicit Types (rec : value -> value -> heap -> option (result unit * heap)).

Lemma default_locs_cons fd fs l :
  l ∈ default_locs (fd :: fs) <->
  f_default fd = Some (VRef l) \/ l ∈ default_locs fs.
Proof.
  unfold default_locs. simpl. unfold default_loc at 1.
  destruct (f_default fd) as [[| | | |l']|]; simpl;
    try (split; [by right | by intros [?|?]]).
  rewrite elem_of_cons. split.
  - intros [->|?]; [by left | by right].
  - intros [[= ->]|?]; [by left | by right].
Qed.

(** A field that the loop passes over. *)
Lemma sync_field_skip rec from_ fd h :
  Sync.getattr_or_None h from_ (f_name fd) = VNone \/
  (forall l, f_default fd = Some (VRef l) ->
     isinstance_Provider h (VRef l) = false /\
     is_dataclass h (VRef l) = false) ->
  Sync.sync_field rec from_ fd h = Some (Ok tt, h).
Proof.
  unfold Sync.sync_field. intros [->|Hd]; [done|].
  destruct (is_None _); [done|].
  destruct (f_default fd) as [[| | | |l]|]; try done.
  destruct (Hd l eq_refl) as [-> ->]. done.
Qed.

(** A field that the loop copies: the default takes, for each of its
    state fields, the value that [from_]'s provider has. *)
Lemma sync_field_copy rec from_ fd h d t ct a_t cd a_d :
  copies h from_ fd d t ->
  h !! t = Some (ProviderObj ct a_t) ->
  h !! d = Some (ProviderObj cd a_d) ->
  (forall i, i ∈ c_STATE_FIELDS ct -> is_Some (a_t !! i)) ->
  c_STATE_FIELDS cd ⊆ c_STATE_FIELDS ct ->
  exists a',
    Sync.sync_field rec from_ fd h
      = Some (Ok tt, <[d := ProviderObj cd a']> h) /\
    forall i, i ∈ c_STATE_FIELDS cd -> a' !! i = a_t !! i.
Proof.
  intros (Hdef & Hprov & Htarget) Ht Hd Hall Hsub.
  destruct (getstate_fields_total a_t _ Hall) as [st Hst].
  destruct (getstate_fields_Ok a_t _ st Hst) as [_ Hval].
  destruct (setstate_fields_Ok d st (c_STATE_FIELDS cd) h cd a_d Hd)
    as (a' & Hset & Hin & _).
  { intros f Hf. rewrite Hval by (by apply Hsub). by apply Hall, Hsub. }
  exists a'. split.
  - unfold Sync.sync_field. rewrite Htarget, Hdef, Hprov. simpl.
    unfold Provider.__getstate__. rewrite Ht, Hst.
    unfold Provider.__setstate__, class_of. rewrite Hd. by rewrite Hset.
  - intros i Hi. rewrite Hin by done. apply Hval. by apply Hsub.
Qed.

(** Writing new attributes into a provider changes no type test. *)
Lemma is_dataclass_update h d cd a_d a' v :
  h !! d = Some (ProviderObj cd a_d) ->
  is_dataclass (<[d := ProviderObj cd a']> h) v = is_dataclass h v.
Proof.
  intros Hd. destruct v as [| | | |l]; try done. simpl.
  destruct (decide (d = l)) as [<-|Hne].
  - by rewrite lookup_insert_eq, Hd.
  - by rewrite lookup_insert_ne.
Qed.

Lemma isinstance_Provider_update h d cd a_d a' v :
  h !! d = Some (ProviderObj cd a_d) ->
  isinstance_Provider (<[d := ProviderObj cd a']> h) v
    = isinstance_Provider h v.
Proof.
  intros Hd. destruct v as [| | | |l]; try done. simpl.
  destruct (decide (d = l)) as [<-|Hne].
  - by rewrite lookup_insert_eq, Hd.
  - by rewrite lookup_insert_ne.
Qed.

Lemma getattr_or_None_update h d o lf n :
  lf ≠ d ->
  Sync.getattr_or_None (<[d := o]> h) (VRef lf) n
    = Sync.getattr_or_None h (VRef lf) n.
Proof. intros Hne. unfold Sync.getattr_or_None. by rewrite lookup_insert_ne. Qed.

(** The loop, on containers without nested composites whose providers
    stand apart from the defaults that the loop writes. *)
Lemma sync_loop rec lf dcf a_from (D : list loc) fs : forall h,
  h !! lf = Some (ContainerObj dcf a_from) ->
  (forall fd l, fd ∈ fs -> f_default fd = Some (VRef l) ->
     is_dataclass h (VRef l) = false) ->
  NoDup (default_locs fs) ->
  default_locs fs ⊆ D ->
  (forall fd d, fd ∈ fs -> f_default fd = Some (VRef d) ->
     isinstance_Provider h (VRef d) = true ->
     Sync.getattr_or_None h (VRef lf) (f_name fd) = VNone \/
     exists t, Sync.getattr_or_None h (VRef lf) (f_name fd) = VRef t /\
               (t ∉ D) /\ exports_for h t d) ->
  exists h',
    Sync.for_fields (Sync.sync_field rec (VRef lf)) fs h = Some (Ok tt, h') /\
    (forall l, l ∉ default_locs fs -> h' !! l = h !! l) /\
    (forall fd d t cd a_d i,
       fd ∈ fs -> copies h (VRef lf) fd d t ->
       h !! d = Some (ProviderObj cd a_d) -> i ∈ c_STATE_FIELDS cd ->
       getattr h' d i = getattr h t i).
Proof.
  induction fs as [|fd0 fs IH]; intros h Hlf Hflat Hnd HD Hpair.
  { exists h. split; [done|]. split; [done|].
    intros ? ? ? ? ? ? Hin. by inversion Hin. }
  assert (forall l, l ∈ default_locs fs -> l ∈ default_locs (fd0 :: fs))
    as Htail by (intros l ?; apply default_locs_cons; by right).
  assert (NoDup (default_locs fs) /\
          forall d, f_default fd0 = Some (VRef d) -> d ∉ default_locs fs)
    as [Hnd' Hhead].
  { unfold default_locs in *. simpl in Hnd. unfold default_loc at 1 in Hnd.
    destruct (f_default fd0) as [[| | | |d0]|]; simpl in Hnd;
      try (split; [done | by intros ? [=]]).
    apply NoDup_cons in Hnd as [? ?]. split; [done|]. by intros ? [= <-]. }
  assert ((Sync.sync_field rec (VRef lf) fd0 h = Some (Ok tt, h) /\
           forall d t, ~ copies h (VRef lf) fd0 d t) \/
          exists d t cd a_d a',
            copies h (VRef lf) fd0 d t /\
            h !! d = Some (ProviderObj cd a_d) /\ (t ∉ D) /\
            Sync.sync_field rec (VRef lf) fd0 h
              = Some (Ok tt, <[d := ProviderObj cd a']> h) /\
            forall i, i ∈ c_STATE_FIELDS cd -> a' !! i = getattr h t i)
    as [[Hskip Hno]|(d & t & cd & a_d & a' & Hcp & Hd & HtD & Hrun & Hval)].
  { destruct (f_default fd0) as [dv|] eqn:Hdef.
    2:{ left. split.
        - apply sync_field_skip. right. intros l. by rewrite Hdef.
        - intros d t (Hc & _). by rewrite Hdef in Hc. }
    assert ((exists d, dv = VRef d) \/ ~ (exists d, dv = VRef d))
      as [[d ->]|Hnr].
    { destruct dv; try (right; by intros [? [=]]). left. by eexists. }
    2:{ left. split.
        - apply sync_field_skip. right. intros l. rewrite Hdef.
          intros [= ->]. destruct Hnr. by eexists.
        - intros d t (Hc & _). rewrite Hdef in Hc. injection Hc as ->.
          destruct Hnr. by eexists. }
    destruct (isinstance_Provider h (VRef d)) eqn:Hprov.
    2:{ left. split.
        - apply sync_field_skip. right. intros l. rewrite Hdef.
          intros [= <-]. split; [done|].
          apply (Hflat fd0); [left | done].
        - intros d' t (Hc & Hp & _). rewrite Hdef in Hc.
          injection Hc as <-. congruence. }
    destruct (Hpair fd0 d) as [Hnone|(t & Ht & HtD & Hexp)];
      [left | done | done | |].
    - left. split.
      + apply sync_field_skip. by left.
      + intros d' t (_ & _ & Ht). congruence.
    - right. destruct Hexp as (ct & a_t & cd & a_d & Hta & Hda & Hall & Hsub).
      destruct (sync_field_copy rec (VRef lf) fd0 h d t ct a_t cd a_d)
        as (a' & Hrun & Hval); try done.
      exists d, t, cd, a_d, a'. repeat split; try done.
      intros i Hi. rewrite Hval by done.
      unfold getattr, attrs_at. by rewrite Hta. }
  - (* the field is passed over *)
    destruct (IH h) as (h' & Hrun & Hframe & Hflow); try done.
    { intros fd l ? ?. apply (Hflat fd); [by right | done]. }
    { intros l ?. by apply HD, Htail. }
    { intros fd d ? ? ?. apply Hpair; [by right | done | done]. }
    exists h'. simpl. rewrite Hskip. split; [done|]. split.
    + intros l Hl. apply Hframe. intros ?. by apply Hl, Htail.
    + intros fd d t cd a_d i Hin Hcp Hd Hi.
      apply elem_of_cons in Hin as [->|Hin]; [by destruct (Hno d t)|].
      by eapply Hflow.
  - (* the field is copied *)
    destruct Hcp as (Hdef & Hprov & Htarget).
    assert (lf ≠ d) as Hlfd by (intros ->; congruence).
    assert (d ∈ D) as HdD.
    { apply HD, default_locs_cons. by left. }
    assert (t ≠ d) as Htd by (intros ->; done).
    set (h1 := <[d := ProviderObj cd a']> h).
    destruct (IH h1) as (h' & Hrun' & Hframe & Hflow); try done.
    { subst h1. by rewrite lookup_insert_ne. }
    { intros fd l ? ?. subst h1. rewrite (is_dataclass_update h d cd a_d) by done.
      apply (Hflat fd); [by right | done]. }
    { intros l ?. by apply HD, Htail. }
    { intros fd d' Hin Hdef' Hprov'. subst h1.
      rewrite (isinstance_Provider_update h d cd a_d) in Hprov' by done.
      rewrite getattr_or_None_update by done.
      destruct (Hpair fd d') as [?|(t' & Ht' & Ht'D & Hexp)];
        [by right | done | done | by left |].
      right. exists t'. split; [done|]. split; [done|].
      destruct Hexp as (ct & a_t & cd' & a_d' & Hta & Hda & Hall & Hsub).
      exists ct, a_t, cd', a_d'.
      assert (d' ≠ d).
      { intros ->. apply (Hhead d Hdef).
        assert (default_loc fd = Some d) as Hloc
          by (unfold default_loc; by rewrite Hdef').
        unfold default_locs. apply list_elem_of_omap. by exists fd. }
      assert (t' ≠ d) by (intros ->; done).
      rewrite !lookup_insert_ne by done. done. }
    exists h'. simpl. rewrite Hrun. fold h1. split; [done|]. split.
    + intros l Hl. rewrite Hframe by (intros ?; by apply Hl, Htail).
      subst h1. rewrite lookup_insert_ne; [done|].
      intros <-. apply Hl, default_locs_cons. by left.
    + intros fd d' t' cd' a_d' i Hin (Hdef' & Hprov' & Htarget') Hd' Hi.
      apply elem_of_cons in Hin as [->|Hin].
      * rewrite Hdef in Hdef'. injection Hdef' as <-.
        rewrite Htarget in Htarget'. injection Htarget' as <-.
        rewrite Hd in Hd'. injection Hd' as <- <-.
        unfold getattr at 1, attrs_at.
        rewrite Hframe by (by apply Hhead). subst h1.
        rewrite lookup_insert_eq. simpl. by apply Hval.
      * assert (d' ≠ d).
        { intros ->. apply (Hhead d Hdef).
          assert (default_loc fd = Some d) as Hloc
            by (unfold default_loc; by rewrite Hdef').
          unfold default_locs. apply list_elem_of_omap. by exists fd. }
        destruct (Hpair fd d') as [Hn|(t'' & Ht'' & Ht''D & _)];
          [by right | done | done | congruence |].
        rewrite Htarget' in Ht''. injection Ht'' as <-.
        assert (t' ≠ d) by (intros ->; done).
        rewrite (Hflow fd d' t' cd' a_d' i); try done.
        -- unfold getattr, attrs_at. subst h1. by rewrite lookup_insert_ne.
        -- split; [done|]. subst h1.
           rewrite (isinstance_Provider_update h d cd a_d) by done.
           by rewrite getattr_or_None_update.
        -- subst h1. by rewrite lookup_insert_ne.
Qed.

(** C2 as stated fails: the state goes the other way.  The default of
    the declaration, at 1, answered [1] and answers [5] afterwards, the
    override of [from_]'s provider; the providers of the two instances,
    at 2 and at 3, are as they were. *)
Lemma sync_container_writes_the_declaration :
  exists h',
    Sync.sync_container 1 (VRef 4) (VRef 5) Examples.h_sync
      = Some (Ok tt, h') /\
    Provider.get Examples.h_sync 1 = Ok (VInt 1) /\
    Provider.get h' 1 = Ok (VInt 5) /\
    getattr Examples.h_sync 1 "_override" = Some sentinel /\
    getattr h' 1 "_override" = Some (VInt 5) /\
    h' !! 2 = Examples.h_sync !! 2 /\
    h' !! 3 = Examples.h_sync !! 3 /\
    Provider.get h' 3 = Ok (VInt 7).
Proof.
  eexists. split; [vm_compute; reflexivity|].
  repeat split; vm_compute; reflexivity.
Qed.

(** C2, amended: on a container without nested composites, whose
    defaults are distinct objects and are not the providers that [from_]
    holds, [sync_container] ends normally; every object that is not a
    default of the declaration is as it was; and the default of each
    copied field has, for each of its state fields, the value that
    [from_]'s provider has. *)
Theorem sync_container_copies_onto_defaults
    h lf lt dc a_to dcf a_from depth :
  h !! lt = Some (ContainerObj dc a_to) ->
  h !! lf = Some (ContainerObj dcf a_from) ->
  (forall fd l, fd ∈ dc_fields dc -> f_default fd = Some (VRef l) ->
     is_dataclass h (VRef l) = false) ->
  NoDup (default_locs (dc_fields dc)) ->
  (forall fd d, fd ∈ dc_fields dc -> f_default fd = Some (VRef d) ->
     isinstance_Provider h (VRef d) = true ->
     Sync.getattr_or_None h (VRef lf) (f_name fd) = VNone \/
     exists t, Sync.getattr_or_None h (VRef lf) (f_name fd) = VRef t /\
               (t ∉ default_locs (dc_fields dc)) /\ exports_for h t d) ->
  exists h',
    Sync.sync_container (S depth) (VRef lf) (VRef lt) h = Some (Ok tt, h') /\
    (forall l, l ∉ default_locs (dc_fields dc) -> h' !! l = h !! l) /\
    (forall fd d t cd a_d i,
       fd ∈ dc_fields dc -> copies h (VRef lf) fd d t ->
       h !! d = Some (ProviderObj cd a_d) -> i ∈ c_STATE_FIELDS cd ->
       getattr h' d i = getattr h t i).
Proof.
  intros Hlt Hlf Hflat Hnd Hpair.
  destruct (sync_loop (Sync.sync_container depth) lf dcf a_from
              (default_locs (dc_fields dc)) (dc_fields dc) h)
    as (h' & Hrun & Hframe & Hflow); try done.
  exists h'. simpl. by rewrite Hlt.
Qed.

Lemma sync_container_copies_onto_defaults_witness :
  exists h',
    Sync.sync_container 1 (VRef 4) (VRef 5) Examples.h_sync
      = Some (Ok tt, h') /\
    h' !! 3 = Examples.h_sync !! 3 /\
    getattr h' 1 "_override" = Some (VInt 5).
Proof.
  assert (forall fd, fd ∈ dc_fields Examples.C ->
                     fd = Field "a" (Some (VRef 1))) as Hfd.
  { intros fd Hin. simpl in Hin.
    apply elem_of_cons in Hin as [->|Hin]; [done|]. by inversion Hin. }
  destruct (sync_container_copies_onto_defaults
              Examples.h_sync 4 5 Examples.C _ Examples.C _ 0
              eq_refl eq_refl)
    as (h' & Hrun & Hframe & Hflow).
  - intros fd l Hin Hdef. rewrite (Hfd fd Hin) in Hdef.
    injection Hdef as <-. reflexivity.
  - repeat constructor. by inversion 1.
  - intros fd d Hin Hdef _. rewrite (Hfd fd Hin) in Hdef |- *.
    injection Hdef as <-. right. exists 2.
    split; [reflexivity|]. split.
    + simpl. intros Hin2. apply elem_of_cons in Hin2 as [?|Hin2];
        [done | by inversion Hin2].
    + eexists _, _, _, _. split; [reflexivity|]. split; [reflexivity|].
      split; [|done]. intros i Hi. vm_compute in Hi.
      repeat (apply elem_of_cons in Hi as [->|Hi]; [by eexists|]).
      by inversion Hi.
  - exists h'. split; [done|]. split.
    + apply Hframe. simpl. intros Hin. apply elem_of_cons in Hin as [?|Hin];
        [done | by inversion Hin].
    + erewrite (Hflow (Field "a" (Some (VRef 1))) 1 2 Examples.Static _
                  "_override"); [reflexivity | simpl; left | | reflexivity |].
      * split; [reflexivity|]. split; reflexivity.
      * vm_compute. left.
Defined.

(** With a nested composite the recursive call takes the default of the
    field as its [from_] and [from_]'s attribute as its [to_]: the
    provider that [from_] holds inside is not read, and the store ends
    as it began. *)
Example sync_container_nested_example :
  Sync.sync_container 2 (VRef 8) (VRef 9) Examples.h_nested
    = Some (Ok tt, Examples.h_nested) /\
  Provider.get Examples.h_nested 2 = Ok (VInt 5) /\
  Provider.get Examples.h_nested 1 = Ok (VInt 1).
Proof. repeat split; vm_compute; reflexivity. Qed.

End SyncFacts.

(** * Further properties of the code *)

(** ** Provider: reset, set, get *)

Section ProviderMore.

Implicit Types (h : heap) (p l : loc) (v : value).

Lemma setattr_setattr l n v1 v2 h :
  setattr l n v2 (setattr l n v1 h) = setattr l n v2 h.
Proof.
  unfold setattr. destruct (h !! l) as [o|] eqn:E; [|by rewrite E].
  rewrite lookup_insert_eq, insert_insert_eq.
  destruct o; simpl; by rewrite ?insert_insert_eq.
Qed.

Lemma isinstance_SentinelClass_set p v h x :
  isinstance_SentinelClass (Provider.set p v h) x = isinstance_SentinelClass h x.
Proof.
  unfold Provider.set. destruct (isinstance_SentinelClass h v); [done|].
  apply isinstance_SentinelClass_setattr.
Qed.

(** X1: [reset] puts the provider back on its computed default: [get()]
    is then the class's [_provide]; it forgets any [set] before it, doing
    it twice is doing it once, and no other object is touched. *)
Theorem reset_returns_to_computed_default h p c a v :
  module_loaded h ->
  h !! p = Some (ProviderObj c a) ->
  Provider.get (Provider.reset p h) p
    = c_provide c (<["_override" := sentinel]> a) /\
  Provider.reset p (Provider.set p v h) = Provider.reset p h /\
  Provider.reset p (Provider.reset p h) = Provider.reset p h /\
  (forall l, l ≠ p -> Provider.reset p h !! l = h !! l).
Proof.
  intros Hm Hp. unfold Provider.reset. split; [|split; [|split]].
  - unfold Provider.get, Provider._provide.
    rewrite (getattr_setattr_provider _ _ _ _ _ _ _ Hp), decide_True by done.
    rewrite isinstance_SentinelClass_setattr, (isinstance_sentinel h Hm).
    simpl. by rewrite (setattr_provider _ _ _ _ _ _ Hp).
  - unfold Provider.set. destruct (isinstance_SentinelClass h v); [done|].
    apply setattr_setattr.
  - apply setattr_setattr.
  - intros l Hl. by apply setattr_lookup_ne.
Qed.

Lemma reset_returns_to_computed_default_witness :
  Provider.get (Provider.reset 1 Examples.h_patch) 1 = Ok (VInt 1) /\
  Provider.reset 1 (Provider.set 1 (VInt 8) Examples.h_patch)
    = Provider.reset 1 Examples.h_patch.
Proof.
  destruct (reset_returns_to_computed_default Examples.h_patch 1 _ _ (VInt 8)
              eq_refl eq_refl) as (Hg & Hs & _).
  split; [rewrite Hg; reflexivity | exact Hs].
Defined.

(** X2: a [set] with a value replaces what an earlier [set] left; it
    writes the attribute [_override] of its provider and nothing else. *)
Theorem set_overrides_previous_set h p c a v1 v2 :
  h !! p = Some (ProviderObj c a) ->
  isinstance_SentinelClass h v2 = false ->
  Provider.set p v2 (Provider.set p v1 h) = Provider.set p v2 h /\
  Provider.get (Provider.set p v2 (Provider.set p v1 h)) p = Ok v2 /\
  (forall l, l ≠ p -> Provider.set p v2 h !! l = h !! l) /\
  (forall n, n ≠ "_override" ->
     getattr (Provider.set p v2 h) p n = getattr h p n) /\
  class_of (Provider.set p v2 h) p = Some c.
Proof.
  intros Hp Hv2.
  assert (Provider.set p v2 (Provider.set p v1 h) = Provider.set p v2 h) as Heq.
  { unfold Provider.set at 1. rewrite isinstance_SentinelClass_set, Hv2.
    rewrite (set_not_sentinel h p v2 Hv2).
    unfold Provider.set. destruct (isinstance_SentinelClass h v1); [done|].
    apply setattr_setattr. }
  split; [done|]. rewrite Heq, (set_not_sentinel h p v2 Hv2).
  split; [|split; [|split]].
  - apply get_override.
    + rewrite (getattr_setattr_provider _ _ _ _ _ _ _ Hp). by rewrite decide_True.
    + by rewrite isinstance_SentinelClass_setattr.
  - intros l Hl. by apply setattr_lookup_ne.
  - intros n Hn. rewrite (getattr_setattr_provider _ _ _ _ _ _ _ Hp).
    rewrite decide_False by done. unfold getattr, attrs_at. by rewrite Hp.
  - unfold class_of. by rewrite (setattr_provider _ _ _ _ _ _ Hp).
Qed.

Lemma set_overrides_previous_set_witness :
  Provider.get (Provider.set 1 (VInt 9) (Provider.set 1 (VInt 8) Examples.h_patch)) 1
    = Ok (VInt 9).
Proof.
  apply (set_overrides_previous_set Examples.h_patch 1 _ _ (VInt 8) (VInt 9)
           eq_refl eq_refl).
Defined.

(** X3: a provider as [__init__] leaves it has no override, so [get()] is
    the class's [_provide], which for the base class [Provider] raises
    [NotImplementedError]; once a value is set, [get()] is that value and
    [_provide] is not consulted, the base class included. *)
Theorem new_provider_gets_computed_default h p c v :
  module_loaded h ->
  h !! p = None ->
  let h1 := <[p := Provider.__init__ c]> h in
  Provider.get h1 p = c_provide c {[ "_override" := sentinel ]} /\
  (c = Provider_class -> Provider.get h1 p = Raise NotImplementedError) /\
  (isinstance_SentinelClass h v = false ->
     Provider.get (Provider.set p v h1) p = Ok v).
Proof.
  intros Hm Hp h1.
  assert (p ≠ sentinel_loc) as Hne by (intros ->; congruence).
  assert (h1 !! p = Some (ProviderObj c {[ "_override" := sentinel ]})) as Hp1
    by (subst h1; by rewrite lookup_insert_eq).
  assert (forall x, isinstance_SentinelClass h1 x = isinstance_SentinelClass h x)
    as Hs.
  { intros [| | | |l]; try done. subst h1. simpl.
    destruct (decide (p = l)) as [<-|?].
    - by rewrite lookup_insert_eq, Hp.
    - by rewrite lookup_insert_ne. }
  assert (Provider.get h1 p = c_provide c {[ "_override" := sentinel ]}) as Hg.
  { unfold Provider.get, Provider._provide, getattr, attrs_at.
    rewrite Hp1. simpl. rewrite lookup_singleton_eq.
    by rewrite Hs, (isinstance_sentinel h Hm). }
  split; [done|]. split.
  - intros ->. by rewrite Hg.
  - intros Hv. rewrite set_not_sentinel by (by rewrite Hs).
    apply get_override.
    + rewrite (getattr_setattr_provider _ _ _ _ _ _ _ Hp1).
      by rewrite decide_True.
    + by rewrite isinstance_SentinelClass_setattr, Hs.
Qed.

Lemma new_provider_gets_computed_default_witness :
  Provider.get (<[3 := Provider.__init__ Provider_class]> Examples.h_patch) 3
    = Raise NotImplementedError /\
  Provider.get (Provider.set 3 (VInt 4)
                  (<[3 := Provider.__init__ Provider_class]> Examples.h_patch)) 3
    = Ok (VInt 4).
Proof.
  destruct (new_provider_gets_computed_default Examples.h_patch 3
              Provider_class (VInt 4) eq_refl eq_refl) as (_ & Hb & Hs).
  split; [by apply Hb | by apply Hs].
Defined.

End ProviderMore.

(** ** Provider: patch *)

Section PatchMore.

Implicit Types (h : heap) (p l : loc) (v : value).
Implicit Types (body : heap -> result unit * heap).

(** X4: inside the scope of [patch(v)], [get()] is [v]; when the body ends
    normally the override is the one saved on entry, whatever the body did
    to it, and the exit writes nothing but that attribute. *)
Theorem patch_restores_after_normal_exit h p c a o v body h2 c2 a2 :
  h !! p = Some (ProviderObj c a) ->
  a !! "_override" = Some o ->
  isinstance_SentinelClass h v = false ->
  body (setattr p "_override" v h) = (Ok tt, h2) ->
  h2 !! p = Some (ProviderObj c2 a2) ->
  Provider.get (setattr p "_override" v h) p = Ok v /\
  Provider.with_patch p v body h = (Ok tt, setattr p "_override" o h2) /\
  getattr (setattr p "_override" o h2) p "_override" = Some o /\
  (forall l, l ≠ p -> setattr p "_override" o h2 !! l = h2 !! l) /\
  (forall n, n ≠ "_override" ->
     getattr (setattr p "_override" o h2) p n = getattr h2 p n).
Proof.
  intros Hp Ho Hv Hb Hp2. split; [|split; [|split; [|split]]].
  - apply get_override.
    + rewrite (getattr_setattr_provider _ _ _ _ _ _ _ Hp). by rewrite decide_True.
    + by rewrite isinstance_SentinelClass_setattr.
  - unfold Provider.with_patch.
    rewrite (patch_start_value h p v o Hv)
      by (unfold getattr, attrs_at; by rewrite Hp).
    by rewrite Hb.
  - rewrite (getattr_setattr_provider _ _ _ _ _ _ _ Hp2). by rewrite decide_True.
  - intros l Hl. by apply setattr_lookup_ne.
  - intros n Hn. rewrite (getattr_setattr_provider _ _ _ _ _ _ _ Hp2).
    rewrite decide_False by done. unfold getattr, attrs_at. by rewrite Hp2.
Qed.

Lemma patch_restores_after_normal_exit_witness :
  Provider.with_patch 1 (VInt 2) (MoreExamples.set_body (VInt 3)) Examples.h_patch
    = (Ok tt, Examples.h_patch).
Proof.
  destruct (patch_restores_after_normal_exit Examples.h_patch 1 _ _ (VInt 10)
              (VInt 2) (MoreExamples.set_body (VInt 3)) _ _ _
              eq_refl eq_refl eq_refl eq_refl eq_refl) as (_ & Hw & _).
  rewrite Hw. vm_compute. reflexivity.
Defined.

(** X5: scopes of [patch] nest: with [patch(v2)] inside [patch(v1)] the
    body runs under [v2], and after both have ended normally the override
    is the one from before the outer scope. *)
Theorem nested_patch_restores_outermost h p c a o v1 v2 body h3 c3 a3 :
  h !! p = Some (ProviderObj c a) ->
  a !! "_override" = Some o ->
  isinstance_SentinelClass h v1 = false ->
  isinstance_SentinelClass h v2 = false ->
  body (setattr p "_override" v2 h) = (Ok tt, h3) ->
  h3 !! p = Some (ProviderObj c3 a3) ->
  Provider.get (setattr p "_override" v2 h) p = Ok v2 /\
  Provider.with_patch p v1 (Provider.with_patch p v2 body) h
    = (Ok tt, setattr p "_override" o h3).
Proof.
  intros Hp Ho Hv1 Hv2 Hb Hp3. split.
  - apply get_override.
    + rewrite (getattr_setattr_provider _ _ _ _ _ _ _ Hp). by rewrite decide_True.
    + by rewrite isinstance_SentinelClass_setattr.
  - pose proof (setattr_provider p "_override" v1 h c a Hp) as Hp1.
    unfold Provider.with_patch at 1.
    rewrite (patch_start_value h p v1 o Hv1)
      by (unfold getattr, attrs_at; by rewrite Hp).
    unfold Provider.with_patch.
    rewrite (patch_start_value _ p v2 v1).
    + rewrite setattr_setattr, Hb. simpl. by rewrite setattr_setattr.
    + by rewrite isinstance_SentinelClass_setattr.
    + rewrite (getattr_setattr_provider _ _ _ _ _ _ _ Hp). by rewrite decide_True.
Qed.

Lemma nested_patch_restores_outermost_witness :
  Provider.with_patch 1 (VInt 2)
      (Provider.with_patch 1 (VInt 3) Examples.quiet_body) Examples.h_patch
    = (Ok tt, Examples.h_patch).
Proof.
  destruct (nested_patch_restores_outermost Examples.h_patch 1 _ _ (VInt 10)
              (VInt 2) (VInt 3) Examples.quiet_body _ _ _
              eq_refl eq_refl eq_refl eq_refl eq_refl eq_refl) as [_ Hw].
  rewrite Hw. vm_compute. reflexivity.
Defined.



(** X7: on an instance without the attribute [_override] (its class did
    not run [Provider.__init__]), [get()] raises [AttributeError], and
    [patch(v)] raises it on entry: the body is not run and the store is
    untouched.  [patch(sentinel)] does not read the attribute and runs the
    body; [set(v)] creates the attribute. *)
Theorem missing_override_attribute h p c a v body :
  h !! p = Some (ProviderObj c a) ->
  a !! "_override" = None ->
  Provider.get h p = Raise AttributeError /\
  (isinstance_SentinelClass h v = false ->
     Provider.with_patch p v body h = (Raise AttributeError, h) /\
     Provider.get (Provider.set p v h) p = Ok v) /\
  (isinstance_SentinelClass h v = true ->
     Provider.with_patch p v body h = body h).
Proof.
  intros Hp Ha.
  assert (getattr h p "_override" = None) as Hg
    by (unfold getattr, attrs_at; by rewrite Hp).
  split; [|split].
  - unfold Provider.get. by rewrite Hg.
  - intros Hv. split.
    + unfold Provider.with_patch, Provider.patch_start. by rewrite Hv, Hg.
    + rewrite set_not_sentinel by done. apply get_override.
      * rewrite (getattr_setattr_provider _ _ _ _ _ _ _ Hp).
        by rewrite decide_True.
      * by rewrite isinstance_SentinelClass_setattr.
  - apply with_patch_sentinel.
Qed.

Lemma missing_override_attribute_witness :
  Provider.get MoreExamples.h_base 4 = Raise AttributeError /\
  Provider.with_patch 4 (VInt 2) Examples.quiet_body MoreExamples.h_base
    = (Raise AttributeError, MoreExamples.h_base).
Proof.
  destruct (missing_override_attribute MoreExamples.h_base 4 _ _ (VInt 2)
              Examples.quiet_body eq_refl eq_refl) as (Hg & Hp & _).
  split; [exact Hg | by apply Hp].
Defined.

End PatchMore.

(** ** Provider: export and import of the state *)

Section StateMore.

Implicit Types (h : heap) (p l : loc) (c : pyclass).
Implicit Types (a st : gmap string value).

Lemma getstate_fields_Raise a fs e :
  Provider.getstate_fields a fs = Raise e ->
  e = AttributeError /\ exists f, f ∈ fs /\ a !! f = None.
Proof.
  induction fs as [|f0 fs IH]; simpl; [done|].
  destruct (a !! f0) as [v|] eqn:Hf0.
  - destruct (Provider.getstate_fields a fs) as [st|e']; [done|]. simpl.
    intros [= <-]. destruct (IH eq_refl) as (-> & f & Hf & Hnone).
    split; [done|]. exists f. split; [by right | done].
  - intros [= <-]. split; [done|]. exists f0. split; [left | done].
Qed.

Lemma setstate_own_state_id h p c a :
  h !! p = Some (ProviderObj c a) ->
  (forall f, f ∈ c_STATE_FIELDS c -> is_Some (a !! f)) ->
  exists st,
    Provider.__getstate__ h p = Ok st /\
    Provider.__setstate__ p st h = (Ok tt, h).
Proof.
  intros Hp Hall.
  destruct (getstate_fields_total a _ Hall) as [st Hst].
  destruct (getstate_fields_Ok a _ st Hst) as [_ Hval].
  destruct (setstate_fields_Ok p st (c_STATE_FIELDS c) h c a Hp)
    as (a' & Hset & Hin & Hout).
  { intros f Hf. rewrite Hval by done. by apply Hall. }
  exists st. unfold Provider.__getstate__, Provider.__setstate__, class_of.
  rewrite Hp. split; [done|]. rewrite Hset.
  assert (a' = a) as ->.
  { apply map_eq. intros f.
    destruct (decide (f ∈ c_STATE_FIELDS c)) as [Hf|Hf].
    - by rewrite Hin, Hval.
    - by apply Hout. }
  by rewrite insert_id.
Qed.

(** X8: importing into a provider the state it has just exported changes
    nothing. *)
Theorem setstate_of_own_getstate h p c a :
  h !! p = Some (ProviderObj c a) ->
  (forall f, f ∈ c_STATE_FIELDS c -> is_Some (a !! f)) ->
  exists st,
    Provider.__getstate__ h p = Ok st /\
    Provider.__setstate__ p st h = (Ok tt, h).
Proof. apply setstate_own_state_id. Qed.

Lemma setstate_of_own_getstate_witness :
  exists st,
    Provider.__getstate__ Examples.h_AB 1 = Ok st /\
    Provider.__setstate__ 1 st Examples.h_AB = (Ok tt, Examples.h_AB).
Proof.
  apply (setstate_of_own_getstate Examples.h_AB 1 Examples.B Examples.B_used
           eq_refl).
  intros f Hf. vm_compute in Hf.
  repeat (apply elem_of_cons in Hf as [->|Hf]; [by eexists|]).
  by inversion Hf.
Defined.

(** X9: a mapping that has every state field can be imported; exporting
    afterwards gives its values back for the state fields and nothing
    else, so a mapping with exactly the state fields comes back as it
    is.  The import leaves the other attributes of the instance and every
    other object alone. *)
Theorem getstate_after_setstate h p c a st :
  h !! p = Some (ProviderObj c a) ->
  (forall f, f ∈ c_STATE_FIELDS c -> is_Some (st !! f)) ->
  exists h' st',
    Provider.__setstate__ p st h = (Ok tt, h') /\
    Provider.__getstate__ h' p = Ok st' /\
    (forall f, f ∈ c_STATE_FIELDS c -> st' !! f = st !! f) /\
    (forall f, f ∉ c_STATE_FIELDS c ->
       st' !! f = None /\ getattr h' p f = getattr h p f) /\
    (dom st = list_to_set (c_STATE_FIELDS c) -> st' = st) /\
    (forall l, l ≠ p -> h' !! l = h !! l).
Proof.
  intros Hp Hall.
  destruct (setstate_fields_Ok p st (c_STATE_FIELDS c) h c a Hp Hall)
    as (a' & Hset & Hin & Hout).
  destruct (getstate_fields_total a' (c_STATE_FIELDS c)) as [st' Hst'].
  { intros f Hf. rewrite Hin by done. by apply Hall. }
  destruct (getstate_fields_Ok a' _ st' Hst') as [Hdom Hval].
  exists (<[p := ProviderObj c a']> h), st'.
  unfold Provider.__setstate__, Provider.__getstate__, class_of.
  rewrite Hp, lookup_insert_eq.
  assert (forall f, f ∈ c_STATE_FIELDS c -> st' !! f = st !! f) as Hsame.
  { intros f Hf. by rewrite Hval, Hin. }
  assert (forall f, f ∉ c_STATE_FIELDS c -> st' !! f = None) as Hnone.
  { intros f Hf. apply not_elem_of_dom. rewrite Hdom.
    by rewrite elem_of_list_to_set. }
  split; [done|]. split; [done|]. split; [done|]. split; [|split].
  - intros f Hf. split; [by apply Hnone|].
    unfold getattr, attrs_at. rewrite lookup_insert_eq, Hp. simpl.
    by apply Hout.
  - intros Hd. apply map_eq. intros f.
    destruct (decide (f ∈ c_STATE_FIELDS c)) as [Hf|Hf]; [by apply Hsame|].
    rewrite Hnone by done. symmetry. apply not_elem_of_dom.
    rewrite Hd. by rewrite elem_of_list_to_set.
  - intros l Hl. by rewrite lookup_insert_ne.
Qed.

Lemma getstate_after_setstate_witness :
  exists h' st',
    Provider.__setstate__ 2 Examples.B_used Examples.h_AB = (Ok tt, h') /\
    Provider.__getstate__ h' 2 = Ok st' /\
    st' = Examples.B_used.
Proof.
  destruct (getstate_after_setstate Examples.h_AB 2 Examples.B
              Examples.B_fresh Examples.B_used eq_refl)
    as (h' & st' & Hs & Hg & _ & _ & Heq & _).
  - intros f Hf. vm_compute in Hf.
    repeat (apply elem_of_cons in Hf as [->|Hf]; [by eexists|]).
    by inversion Hf.
  - exists h', st'. split; [done|]. split; [done|].
    apply Heq. vm_compute. reflexivity.
Defined.

Lemma setstate_fields_stops self st (pre : list string) i post : forall h c a,
  h !! self = Some (ProviderObj c a) ->
  (forall f, f ∈ pre -> is_Some (st !! f)) ->
  st !! i = None ->
  exists a',
    Provider.setstate_fields self st (pre ++ i :: post)%list h
      = (Raise KeyError, <[self := ProviderObj c a']> h) /\
    (forall f, f ∈ pre -> a' !! f = st !! f) /\
    (forall f, f ∉ pre -> a' !! f = a !! f).
Proof.
  induction pre as [|f0 pre IH]; intros h c a Hself Hpre Hi; simpl.
  - rewrite Hi. exists a. rewrite insert_id by done.
    split; [done|]. split; [by inversion 1 | done].
  - destruct (Hpre f0) as [v Hv]; [left|]. rewrite Hv.
    destruct (IH (setattr self f0 v h) c (<[f0 := v]> a))
      as (a' & Heq & Hin & Hout); [by apply setattr_provider | | done |].
    { intros f ?. apply Hpre. by right. }
    exists a'. split; [|split].
    + rewrite Heq. unfold setattr. rewrite Hself. simpl.
      by rewrite insert_insert_eq.
    + intros f Hf. destruct (decide (f ∈ pre)) as [?|Hnot]; [by apply Hin|].
      apply elem_of_cons in Hf as [->|?]; [|done].
      by rewrite Hout, lookup_insert_eq.
    + intros f Hf. apply not_elem_of_cons in Hf as [? ?].
      rewrite Hout by done. by rewrite lookup_insert_ne.
Qed.

(** X10: the import is not atomic.  When the mapping lacks a state field,
    [__setstate__] raises [KeyError] at the first such field of the tuple,
    with the fields before it already assigned and everything else of
    the instance as it was. *)
Theorem setstate_missing_key h p c a st (pre : list string) i post :
  h !! p = Some (ProviderObj c a) ->
  c_STATE_FIELDS c = (pre ++ i :: post)%list ->
  (forall f, f ∈ pre -> is_Some (st !! f)) ->
  st !! i = None ->
  exists a',
    Provider.__setstate__ p st h
      = (Raise KeyError, <[p := ProviderObj c a']> h) /\
    (forall f, f ∈ pre -> a' !! f = st !! f) /\
    (forall f, f ∉ pre -> a' !! f = a !! f).
Proof.
  intros Hp Hfs Hpre Hi.
  unfold Provider.__setstate__, class_of. rewrite Hp, Hfs.
  by apply setstate_fields_stops.
Qed.

Lemma setstate_missing_key_witness :
  exists a',
    Provider.__setstate__ 2 {[ "_override" := VInt 6 ]} Examples.h_AB
      = (Raise KeyError, <[2 := ProviderObj Examples.B a']> Examples.h_AB) /\
    a' !! "_override" = Some (VInt 6).
Proof.
  destruct (setstate_missing_key Examples.h_AB 2 Examples.B Examples.B_fresh
              {[ "_override" := VInt 6 ]} ["_override"] "stamp" ["cache"]
              eq_refl)
    as (a' & Hs & Hin & _).
  - vm_compute. reflexivity.
  - intros f Hf. apply elem_of_cons in Hf as [->|Hf]; [by eexists|].
    by inversion Hf.
  - reflexivity.
  - exists a'. split; [done|]. rewrite Hin by left. reflexivity.
Defined.

(** X11: [__getstate__] succeeds exactly when the instance has every state
    field of its class, and raises [AttributeError] exactly when it lacks
    one; the mapping it returns has the state fields as its keys, with the
    instance's values. *)
Theorem getstate_needs_every_field h p c a :
  h !! p = Some (ProviderObj c a) ->
  ((exists f, f ∈ c_STATE_FIELDS c /\ a !! f = None) <->
     Provider.__getstate__ h p = Raise AttributeError) /\
  ((forall f, f ∈ c_STATE_FIELDS c -> is_Some (a !! f)) <->
     exists st, Provider.__getstate__ h p = Ok st) /\
  (forall st, Provider.__getstate__ h p = Ok st ->
     dom st = list_to_set (c_STATE_FIELDS c) /\
     forall f, f ∈ c_STATE_FIELDS c -> st !! f = a !! f).
Proof.
  intros Hp. unfold Provider.__getstate__. rewrite Hp.
  assert ((forall f, f ∈ c_STATE_FIELDS c -> is_Some (a !! f)) <->
          exists st, Provider.getstate_fields a (c_STATE_FIELDS c) = Ok st)
    as Htot.
  { split; [apply getstate_fields_total|].
    intros [st Hst] f Hf.
    destruct (getstate_fields_Ok a _ st Hst) as [Hdom _].
    assert (f ∈ dom st) as Hd by (rewrite Hdom; by apply elem_of_list_to_set).
    apply elem_of_dom in Hd as [v Hv].
    destruct (getstate_fields_Ok a _ st Hst) as [_ Hval].
    rewrite <- Hval by done. by eexists. }
  split; [|split; [done|]].
  - split.
    + intros (f & Hf & Hnone).
      destruct (Provider.getstate_fields a (c_STATE_FIELDS c)) as [st|e] eqn:E.
      * assert (is_Some (a !! f)) as [v Hv].
        { apply Htot; [by eexists | done]. }
        congruence.
      * by destruct (getstate_fields_Raise a _ e E) as [-> _].
    + intros E. by destruct (getstate_fields_Raise a _ _ E) as [_ ?].
  - apply getstate_fields_Ok.
Qed.

Lemma getstate_needs_every_field_witness :
  Provider.__getstate__ MoreExamples.h_base 4 = Raise AttributeError /\
  exists st, Provider.__getstate__ MoreExamples.h_base 1 = Ok st.
Proof.
  split.
  - apply (getstate_needs_every_field MoreExamples.h_base 4 _ _ eq_refl).
    exists "_override". split; [vm_compute; left | reflexivity].
  - apply (getstate_needs_every_field MoreExamples.h_base 1 _ _ eq_refl).
    intros f Hf. vm_compute in Hf.
    repeat (apply elem_of_cons in Hf as [->|Hf]; [by eexists|]).
    by inversion Hf.
Defined.

End StateMore.

(** ** inject and _inject *)

Section InjectMore.

Implicit Types (h : heap) (f w l : loc) (v : value) (sig : signature).

(** X12: [inject] with no function returns the factory and leaves the
    store alone; with a value that is neither [None] nor callable it
    raises [ValueError] and leaves the store alone; on a function the
    factory applied later and [inject] applied at once build the same
    wrapper, whose calls run the wrapper body with the [squeeze_none] that
    was given. *)
Theorem inject_entry_point h f sig d s v :
  h !! f = Some (FunctionObj (Def sig) d) ->
  not_injected d ->
  Inject.inject VNone s h = (Ok (Factory s), h) /\
  (v ≠ VNone -> Inject.callable h v = false ->
     Inject.inject v s h = (Raise ValueError, h)) /\
  exists w h',
    Inject.inject (VRef f) s h = (Ok (Wrapped w), h') /\
    apply_factory s f h = (Ok w, h') /\
    forall args kwargs,
      Inject.call h' w args kwargs = Inject.wrapper f sig s h args kwargs.
Proof.
  intros Hf Hd. split; [done|]. split.
  - intros Hv Hc. unfold Inject.inject. rewrite Hc. by destruct v.
  - destruct (_inject_new h f sig d s Hf Hd) as [Hw Heq].
    eexists _, _. unfold apply_factory, Inject.inject. simpl.
    rewrite Hf, Heq. split; [done|]. split; [done|].
    intros args kwargs. by eapply call_new_closure.
Qed.

Lemma inject_entry_point_witness :
  Inject.inject (VInt 3) true Examples.h_inject
    = (Raise ValueError, Examples.h_inject) /\
  exists w h',
    Inject.inject (VRef 2) true Examples.h_inject = (Ok (Wrapped w), h') /\
    apply_factory true 2 Examples.h_inject = (Ok w, h').
Proof.
  destruct (inject_entry_point Examples.h_inject 2 _ ∅ true (VInt 3)
              eq_refl eq_refl) as (_ & Hv & w & h' & Hi & Ha & _).
  split; [apply Hv; [discriminate | reflexivity]|].
  exists w, h'. split; [exact Hi | exact Ha].
Defined.

(** X13: wrapping a function that is not marked allocates one new object
    and changes no existing one.  The new object has the function under
    [__wrapped__], a true [_is_injected] and the function's other
    attributes; the function itself stays unmarked, so wrapping it once
    more builds another wrapper. *)
Theorem inject_builds_new_wrapper h f sig d s w h' :
  h !! f = Some (FunctionObj (Def sig) d) ->
  not_injected d ->
  Inject._inject f s h = (Ok w, h') ->
  h !! w = None /\ w ≠ f /\
  (forall l, l ≠ w -> h' !! l = h !! l) /\
  getattr h' w "__wrapped__" = Some (VRef f) /\
  getattr h' w "_is_injected" = Some (VBool true) /\
  (forall n, n ≠ "__wrapped__" -> n ≠ "_is_injected" ->
     getattr h' w n = d !! n) /\
  (forall s' w2 h2, Inject._inject f s' h' = (Ok w2, h2) ->
     w2 ≠ w /\ w2 ≠ f /\ h' !! w2 = None /\ h2 !! w = h' !! w).
Proof.
  intros Hf Hd Hi.
  destruct (_inject_new h f sig d s Hf Hd) as [Hw Heq].
  rewrite Heq in Hi. injection Hi as <- <-.
  assert (fresh (dom h) ≠ f) as Hne by (intros E; rewrite E in Hw; congruence).
  split; [done|]. split; [done|]. split; [|split; [|split; [|split]]].
  - intros l Hl. by rewrite lookup_insert_ne.
  - unfold getattr, attrs_at. rewrite lookup_insert_eq. simpl.
    rewrite lookup_insert_ne by done. by rewrite lookup_insert_eq.
  - unfold getattr, attrs_at. rewrite lookup_insert_eq. simpl.
    by rewrite lookup_insert_eq.
  - intros n Hn1 Hn2. unfold getattr, attrs_at. rewrite lookup_insert_eq.
    simpl. by rewrite !lookup_insert_ne.
  - intros s' w2 h2 Hi2.
    match type of Hi2 with Inject._inject _ _ ?hh = _ => set (h1 := hh) in * end.
    assert (h1 !! f = Some (FunctionObj (Def sig) d)) as Hf1
      by (subst h1; by rewrite lookup_insert_ne).
    destruct (_inject_new h1 f sig d s' Hf1 Hd) as [Hw2 Heq2].
    rewrite Heq2 in Hi2. injection Hi2 as <- <-.
    assert (fresh (dom h1) ≠ fresh (dom h)) as Hne2.
    { intros E. rewrite E in Hw2. subst h1.
      by rewrite lookup_insert_eq in Hw2. }
    split; [done|]. split; [intros E; rewrite E in Hw2; congruence|].
    split; [done|]. by rewrite lookup_insert_ne.
Qed.

Lemma inject_builds_new_wrapper_witness :
  getattr (Inject._inject 2 false Examples.h_inject).2 3 "__wrapped__"
    = Some (VRef 2) /\
  (Inject._inject 2 false Examples.h_inject).2 !! 2 = Examples.h_inject !! 2.
Proof.
  destruct (inject_builds_new_wrapper Examples.h_inject 2 _ ∅ false 3
              (Inject._inject 2 false Examples.h_inject).2 eq_refl eq_refl)
    as (_ & _ & Hframe & Hw & _).
  - vm_compute. reflexivity.
  - split; [exact Hw | by apply Hframe].
Defined.





(** What the second loop leaves: each parameter takes its keyword, and the
    keywords of no parameter stay behind. *)
Lemma bind_keywords_lookup params : forall kwargs arguments k,
  (Inspect.bind_keywords params kwargs arguments).1 !! k
    = (if decide (k ∈ p_name <$> params)
       then match kwargs !! k with
            | Some x => Some x
            | None => arguments !! k
            end
       else arguments !! k) /\
  (Inspect.bind_keywords params kwargs arguments).2 !! k
    = (if decide (k ∈ p_name <$> params) then None else kwargs !! k).
Proof.
  induction params as [|p params IH]; intros kwargs arguments k.
  { simpl. done. }
  cbn [Inspect.bind_keywords]. rewrite fmap_cons.
  assert (forall j, j ≠ p_name p ->
            (j ∈ p_name p :: (p_name <$> params)) <-> j ∈ p_name <$> params)
    as Hmem.
  { intros j Hj. rewrite elem_of_cons. tauto. }
  destruct (kwargs !! p_name p) as [x|] eqn:Hp.
  - destruct (IH (delete (p_name p) kwargs) (<[p_name p := x]> arguments) k)
      as [-> ->].
    destruct (decide (k = p_name p)) as [->|Hne].
    + rewrite lookup_delete_eq, lookup_insert_eq, Hp.
      rewrite !(decide_True (P := _ ∈ _ :: _)) by left.
      by destruct (decide (p_name p ∈ p_name <$> params)).
    + rewrite lookup_delete_ne, lookup_insert_ne by done.
      destruct (decide (k ∈ p_name <$> params)) as [Hin|Hnin].
      * by rewrite !decide_True by (by apply Hmem).
      * by rewrite !decide_False by (by rewrite Hmem).
  - destruct (IH kwargs arguments k) as [-> ->].
    destruct (decide (k = p_name p)) as [->|Hne].
    + rewrite Hp. rewrite !(decide_True (P := _ ∈ _ :: _)) by left.
      by destruct (decide (p_name p ∈ p_name <$> params)).
    + destruct (decide (k ∈ p_name <$> params)) as [Hin|Hnin].
      * by rewrite !decide_True by (by apply Hmem).
      * by rewrite !decide_False by (by rewrite Hmem).
Qed.




End InjectMore.

(** ** The wrapper on a well-formed call *)

Section WrapperCalls.

Local Open Scope list_scope.

Implicit Types (h : heap) (f l : loc) (v : value) (sig ps : signature).
Implicit Types (kwargs arguments : gmap string value).

Lemma Forall2_impl_elem {A B} (P Q : A -> B -> Prop) (l : list A) (k : list B) :
  Forall2 P l k ->
  (forall x y, x ∈ l -> P x y -> Q x y) ->
  Forall2 Q l k.
Proof.
  induction 1 as [|x y l k Hxy _ IH]; intros HPQ; constructor.
  - apply HPQ; [left | done].
  - apply IH. intros x' y' ? ?. apply HPQ; [by right | done].
Qed.

Lemma bind_positional_exact ps1 ps2 : forall args kwargs acc,
  length ps1 = length args ->
  (forall p, p ∈ ps1 -> kwargs !! p_name p = None) ->
  NoDup (p_name <$> ps1) ->
  exists A1,
    Inspect.bind_positional (ps1 ++ ps2) args kwargs acc = Ok (A1, ps2) /\
    Forall2 (fun p v => A1 !! p_name p = Some v) ps1 args /\
    (forall k, k ∉ p_name <$> ps1 -> A1 !! k = acc !! k).
Proof.
  induction ps1 as [|p ps1 IH]; intros [|a args] kwargs acc Hlen Hkw Hnd;
    simpl in Hlen; try lia.
  { exists acc. simpl. split; [by destruct ps2|]. split; [constructor|done]. }
  rewrite fmap_cons in Hnd. apply NoDup_cons in Hnd as [Hp Hnd].
  simpl. rewrite (Hkw p) by left.
  destruct (IH args kwargs (<[p_name p := a]> acc)) as (A1 & Hb & Hall & Hrest);
    [lia | intros q ?; apply Hkw; by right | done |].
  exists A1. split; [done|]. split.
  - constructor; [|done]. by rewrite Hrest, lookup_insert_eq.
  - intros k Hk. rewrite ?fmap_cons in Hk.
    apply not_elem_of_cons in Hk as [? ?].
    rewrite Hrest by done. by rewrite lookup_insert_ne.
Qed.

Lemma apply_defaults_from_other ps : forall arguments new k,
  k ∉ p_name <$> ps ->
  Inspect.apply_defaults_from ps arguments new !! k = new !! k.
Proof.
  induction ps as [|p ps IH]; intros arguments new k Hk; [done|].
  rewrite fmap_cons in Hk. apply not_elem_of_cons in Hk as [Hne Hk]. simpl.
  destruct (arguments !! p_name p) as [x|].
  - rewrite IH by done. by rewrite lookup_insert_ne.
  - destruct (p_default p) as [d|].
    + rewrite IH by done. by rewrite lookup_insert_ne.
    + by apply IH.
Qed.

(** After [apply_defaults] a parameter has the value it was bound to, else
    its default, else nothing. *)
Lemma apply_defaults_lookup ps : forall arguments new p,
  NoDup (p_name <$> ps) -> p ∈ ps ->
  Inspect.apply_defaults_from ps arguments new !! p_name p
    = match arguments !! p_name p with
      | Some x => Some x
      | None => match p_default p with
                | Some d => Some d
                | None => new !! p_name p
                end
      end.
Proof.
  induction ps as [|p0 ps IH]; intros arguments new p Hnd Hin;
    [by inversion Hin|].
  rewrite fmap_cons in Hnd. apply NoDup_cons in Hnd as [Hp0 Hnd].
  apply elem_of_cons in Hin as [->|Hin]; simpl.
  - destruct (arguments !! p_name p0) as [x|].
    + rewrite apply_defaults_from_other by done. by rewrite lookup_insert_eq.
    + destruct (p_default p0) as [d|].
      * rewrite apply_defaults_from_other by done. by rewrite lookup_insert_eq.
      * by apply apply_defaults_from_other.
  - assert (p_name p ≠ p_name p0) as Hne.
    { intros E. apply Hp0. rewrite <- E. by apply list_elem_of_fmap_2. }
    destruct (arguments !! p_name p0) as [x|].
    + rewrite IH by done. by rewrite lookup_insert_ne.
    + destruct (p_default p0) as [d|].
      * rewrite IH by done. by rewrite lookup_insert_ne.
      * by apply IH.
Qed.

(** When every parameter has a value the call goes by position alone. *)
Lemma bound_all ps (D : gmap string value) vals :
  Forall2 (fun p v => D !! p_name p = Some v) ps vals ->
  Inspect.bound_args ps D = vals /\ Inspect.bound_kwargs false ps D = [].
Proof.
  induction 1 as [|p v ps vals Hp _ [IHa IHk]]; [done|].
  simpl. by rewrite Hp, IHa, IHk.
Qed.

(** A call whose positional arguments take the first parameters and whose
    keywords name later ones, all of them with a value in the end. *)
Lemma wrapper_well_formed f ps1 ps2 s h args kwargs vals2 :
  NoDup (p_name <$> ps1 ++ ps2) ->
  length ps1 = length (Inject.filtered_args s h args) ->
  (forall k, is_Some (Inject.filtered_kwargs s h kwargs !! k) ->
     k ∈ p_name <$> ps2) ->
  Forall2 (fun p v =>
             explicit_or_default (Inject.filtered_kwargs s h kwargs) p = Some v)
          ps2 vals2 ->
  Inject.wrapper f (ps1 ++ ps2) s h args kwargs
    = (a <- Inject._inject_args h (Inject.filtered_args s h args ++ vals2) ;
       Ok (Invoke f a [])).
Proof.
  set (fargs := Inject.filtered_args s h args).
  set (fkw := Inject.filtered_kwargs s h kwargs).
  intros Hnd Hlen Hdom Hvals.
  rewrite fmap_app in Hnd. apply NoDup_app in Hnd as (Hnd1 & Hdisj & Hnd2).
  assert (forall p, p ∈ ps1 -> fkw !! p_name p = None) as Hno.
  { intros p Hp. destruct (fkw !! p_name p) as [x|] eqn:E; [|done].
    destruct (Hdisj (p_name p)); [by apply list_elem_of_fmap_2|].
    apply Hdom. by eexists. }
  destruct (bind_positional_exact ps1 ps2 fargs fkw ∅ Hlen Hno Hnd1)
    as (A1 & Hb & Hall1 & Hrest1).
  pose proof (bind_keywords_lookup ps2 fkw A1) as Hkw.
  assert (Inspect.bind_partial (ps1 ++ ps2) fargs fkw
          = Ok (Inspect.bind_keywords ps2 fkw A1).1) as Hbind.
  { unfold Inspect.bind_partial. rewrite Hb. simpl.
    destruct (Inspect.bind_keywords ps2 fkw A1) as [A2 leftover] eqn:E.
    assert (leftover = ∅) as ->.
    { apply map_empty. intros k. destruct (Hkw k) as [_ Hl].
      rewrite ?E in Hl. simpl in Hl. rewrite Hl.
      destruct (decide (k ∈ p_name <$> ps2)) as [?|Hk]; [done|].
      destruct (fkw !! k) eqn:E'; [|done]. destruct Hk. apply Hdom. by eexists. }
    by rewrite decide_True. }
  set (A2 := (Inspect.bind_keywords ps2 fkw A1).1) in *.
  set (D := Inspect.apply_defaults (ps1 ++ ps2) A2).
  assert (NoDup (p_name <$> ps1 ++ ps2)) as Hnd.
  { rewrite fmap_app. apply NoDup_app. by repeat split. }
  assert (Forall2 (fun p v => D !! p_name p = Some v)
                  (ps1 ++ ps2) (fargs ++ vals2)) as HD.
  { apply Forall2_app.
    - eapply Forall2_impl_elem; [exact Hall1|].
      intros p v Hin Hp1. subst D. unfold Inspect.apply_defaults.
      rewrite apply_defaults_lookup;
        [|done | apply elem_of_app; by left].
      destruct (Hkw (p_name p)) as [Hl _]. fold A2 in Hl. rewrite Hl.
      rewrite decide_False by (apply Hdisj; by apply list_elem_of_fmap_2).
      by rewrite Hp1.
    - eapply Forall2_impl_elem; [exact Hvals|].
      intros p v Hin Hp2. subst D. unfold Inspect.apply_defaults.
      rewrite apply_defaults_lookup;
        [|done | apply elem_of_app; by right].
      destruct (Hkw (p_name p)) as [Hl _]. fold A2 in Hl. rewrite Hl.
      rewrite decide_True by (by apply list_elem_of_fmap_2).
      unfold explicit_or_default in Hp2.
      destruct (fkw !! p_name p) as [x|]; [done|].
      rewrite Hrest1, lookup_empty.
      + by destruct (p_default p).
      + intros Hc. apply (Hdisj (p_name p) Hc). by apply list_elem_of_fmap_2. }
  destruct (bound_all _ D _ HD) as [Ha Hk].
  unfold Inject.wrapper. fold fargs fkw. rewrite Hbind. simpl.
  fold D. rewrite Ha, Hk. simpl.
  by destruct (Inject._inject_args h (fargs ++ vals2)).
Qed.

End WrapperCalls.

Section WrapperClaims.

Local Open Scope list_scope.

Implicit Types (h : heap) (f l : loc) (v : value) (sig ps : signature).

Lemma _inject_args_app_Raise h pre a post vs e :
  Inject._inject_args h pre = Ok vs ->
  Inject.resolve h a = Raise e ->
  Inject._inject_args h (pre ++ a :: post) = Raise e.
Proof.
  revert vs. induction pre as [|x pre IH]; intros vs Hpre Ha; simpl.
  - by rewrite Ha.
  - simpl in Hpre. destruct (Inject.resolve h x) as [vx|]; [|done].
    simpl in *. destruct (Inject._inject_args h pre) as [vs'|]; [|done].
    by rewrite (IH vs').
Qed.

(** X16: a call whose positional arguments, after the filter, take the
    first parameters and whose keywords name later parameters, with every
    parameter given a value by the call or by its default, calls the
    function by position with, for each parameter in order, the explicit
    value if there is one and the default otherwise, providers replaced by
    their [get()]. *)
Theorem wrapper_explicit_then_defaults f ps1 ps2 s h args kwargs vals2 vs :
  NoDup (p_name <$> ps1 ++ ps2) ->
  length ps1 = length (Inject.filtered_args s h args) ->
  (forall k, is_Some (Inject.filtered_kwargs s h kwargs !! k) ->
     k ∈ p_name <$> ps2) ->
  Forall2 (fun p v =>
             explicit_or_default (Inject.filtered_kwargs s h kwargs) p = Some v)
          ps2 vals2 ->
  Forall2 (resolved h) (Inject.filtered_args s h args ++ vals2) vs ->
  Inject.wrapper f (ps1 ++ ps2) s h args kwargs = Ok (Invoke f vs []).
Proof.
  intros Hnd Hlen Hdom Hvals Hres.
  rewrite (wrapper_well_formed f ps1 ps2 s h args kwargs vals2) by done.
  apply _inject_args_resolved in Hres. by rewrite Hres.
Qed.

Lemma wrapper_explicit_then_defaults_witness :
  Inject.wrapper 2 (Examples.sig_ab 1) false Examples.h_inject
      [] {["b" := VInt 7]}
    = Ok (Invoke 2 [VInt 1; VInt 7] []).
Proof.
  assert (Inject.filtered_kwargs false Examples.h_inject {["b" := VInt 7]}
          = {["b" := VInt 7]}) as Hk by (vm_compute; reflexivity).
  apply (wrapper_explicit_then_defaults 2 [] (Examples.sig_ab 1) false
           Examples.h_inject [] {["b" := VInt 7]} [VRef 1; VInt 7]).
  - simpl. repeat constructor; [|by inversion 1].
    intros Hin. apply elem_of_cons in Hin as [?|Hin]; [done | by inversion Hin].
  - reflexivity.
  - intros k [x Hx]. rewrite Hk in Hx.
    apply lookup_singleton_Some in Hx as [<- _]. simpl. right. left.
  - rewrite Hk. repeat constructor.
  - simpl. repeat constructor; apply resolve_resolved; reflexivity.
Defined.

(** X17: on such a call, when the [get()] of a provider among the values
    raises and the values before it resolve, the call raises that
    exception and the function is not called. *)
Theorem wrapper_propagates_get_failure
    f ps1 ps2 s h args kwargs vals2 pre q post vs e :
  NoDup (p_name <$> ps1 ++ ps2) ->
  length ps1 = length (Inject.filtered_args s h args) ->
  (forall k, is_Some (Inject.filtered_kwargs s h kwargs !! k) ->
     k ∈ p_name <$> ps2) ->
  Forall2 (fun p v =>
             explicit_or_default (Inject.filtered_kwargs s h kwargs) p = Some v)
          ps2 vals2 ->
  Inject.filtered_args s h args ++ vals2 = pre ++ VRef q :: post ->
  Forall2 (resolved h) pre vs ->
  isinstance_Provider h (VRef q) = true ->
  Provider.get h q = Raise e ->
  Inject.wrapper f (ps1 ++ ps2) s h args kwargs = Raise e.
Proof.
  intros Hnd Hlen Hdom Hvals Hsplit Hpre Hq He.
  rewrite (wrapper_well_formed f ps1 ps2 s h args kwargs vals2) by done.
  rewrite Hsplit. apply _inject_args_resolved in Hpre.
  rewrite (_inject_args_app_Raise h pre (VRef q) post vs e); [done | done |].
  unfold Inject.resolve. by rewrite Hq.
Qed.

Lemma wrapper_propagates_get_failure_witness :
  Inject.wrapper 2 [Param "a" (Some (VRef 3))] false MoreExamples.h_base [] ∅
    = Raise NotImplementedError.
Proof.
  apply (wrapper_propagates_get_failure 2 [] [Param "a" (Some (VRef 3))] false
           MoreExamples.h_base [] ∅ [VRef 3] [] 3 [] []).
  - simpl. repeat constructor. by inversion 1.
  - reflexivity.
  - intros k [x Hx]. vm_compute in Hx. discriminate.
  - repeat constructor.
  - reflexivity.
  - constructor.
  - reflexivity.
  - reflexivity.
Defined.



End WrapperClaims.

(** ** Container synchronisation: edges and frame *)

Section SyncMore.

Implicit Types (h : heap) (fd : field) (fs : list field) (l d t : loc).
Implicit Types (rec : value -> value -> heap -> option (result unit * heap)).

Lemma only_provider_attrs_refl h : only_provider_attrs h h.
Proof. intros l. by left. Qed.

Lemma only_provider_attrs_trans h1 h2 h3 :
  only_provider_attrs h1 h2 -> only_provider_attrs h2 h3 ->
  only_provider_attrs h1 h3.
Proof.
  intros H12 H23 l.
  destruct (H12 l) as [E12|(c & a & a' & E1 & E2)];
    destruct (H23 l) as [E23|(c' & b & b' & E2' & E3)].
  - left. congruence.
  - right. exists c', b, b'. split; congruence.
  - right. exists c, a, a'. split; congruence.
  - right. rewrite E2 in E2'. injection E2' as <- <-.
    by exists c, a, b'.
Qed.

Lemma setstate_fields_frame self st (fs : list string) : forall h c a r h',
  h !! self = Some (ProviderObj c a) ->
  Provider.setstate_fields self st fs h = (r, h') ->
  exists a', h' = <[self := ProviderObj c a']> h.
Proof.
  induction fs as [|i fs IH]; intros h c a r h' Hself; simpl.
  - intros [= _ <-]. exists a. by rewrite insert_id.
  - destruct (st !! i) as [v|].
    + intros Hrun.
      destruct (IH _ c (<[i := v]> a) r h' (setattr_provider _ _ _ _ _ _ Hself)
                  Hrun) as [a' ->].
      exists a'. unfold setattr. rewrite Hself. simpl.
      by rewrite insert_insert_eq.
    + intros [= _ <-]. exists a. by rewrite insert_id.
Qed.

Lemma sync_field_only_provider_attrs rec from_ fd h r h' :
  (forall x y h0 r0 h0', rec x y h0 = Some (r0, h0') ->
     only_provider_attrs h0 h0') ->
  Sync.sync_field rec from_ fd h = Some (r, h') ->
  only_provider_attrs h h'.
Proof.
  intros Hrec. unfold Sync.sync_field.
  destruct (is_None _); [intros [= _ <-]; apply only_provider_attrs_refl|].
  destruct (f_default fd) as [[| | | |s]|];
    try (intros [= _ <-]; apply only_provider_attrs_refl).
  destruct (isinstance_Provider h (VRef s)) eqn:Hprov.
  - destruct (Sync.getstate_of h _) as [state|e];
      [|intros [= _ <-]; apply only_provider_attrs_refl].
    intros [= Hset]. simpl in Hprov.
    destruct (h !! s) as [[|c a| | |]|] eqn:Hs; try done.
    unfold Provider.__setstate__, class_of in Hset. rewrite Hs in Hset.
    destruct (setstate_fields_frame _ _ _ _ _ _ _ _ Hs Hset) as [a' ->].
    intros l. destruct (decide (l = s)) as [->|Hne].
    + right. exists c, a, a'. by rewrite lookup_insert_eq.
    + left. by rewrite lookup_insert_ne.
  - destruct (is_dataclass h (VRef s)); [apply Hrec|].
    intros [= _ <-]. apply only_provider_attrs_refl.
Qed.

Lemma for_fields_only_provider_attrs
    (body : field -> heap -> option (result unit * heap)) fs :
  (forall fd h r h', body fd h = Some (r, h') -> only_provider_attrs h h') ->
  forall h r h',
    Sync.for_fields body fs h = Some (r, h') -> only_provider_attrs h h'.
Proof.
  intros Hbody. induction fs as [|fd fs IH]; intros h r h'; simpl.
  - intros [= _ <-]. apply only_provider_attrs_refl.
  - destruct (body fd h) as [[[[]|e] h1]|] eqn:Hb; [| |done].
    + intros Hrun. eapply only_provider_attrs_trans; [by eapply Hbody|].
      by eapply IH.
    + intros [= _ <-]. by eapply Hbody.
Qed.

(** X18: whatever its arguments, its depth of nesting and its outcome,
    [sync_container] writes nothing but attribute dictionaries of
    providers: it creates no object, changes no class, and leaves every
    container (and every other object that is not a provider) as it was,
    also when it ends with an exception. *)
Theorem sync_container_only_writes_provider_attributes
    depth from_ to_ h r h' :
  Sync.sync_container depth from_ to_ h = Some (r, h') ->
  only_provider_attrs h h'.
Proof.
  revert from_ to_ h r h'.
  induction depth as [|depth IH]; intros from_ to_ h r h'; simpl; [done|].
  destruct (Sync.fields h to_) as [fs|e];
    [|intros [= _ <-]; apply only_provider_attrs_refl].
  apply for_fields_only_provider_attrs.
  intros fd h0 r0 h0'. apply sync_field_only_provider_attrs.
  intros x y h1 r1 h1'. apply IH.
Qed.

Lemma sync_container_only_writes_provider_attributes_witness :
  exists h',
    Sync.sync_container 1 (VRef 4) (VRef 5) Examples.h_sync = Some (Ok tt, h') /\
    only_provider_attrs Examples.h_sync h'.
Proof.
  eexists. split; [vm_compute; reflexivity|].
  apply (sync_container_only_writes_provider_attributes
           1 (VRef 4) (VRef 5) Examples.h_sync (Ok tt)).
  vm_compute. reflexivity.
Defined.

Lemma for_fields_skip_all rec from_ fs h :
  (forall fd, fd ∈ fs -> Sync.sync_field rec from_ fd h = Some (Ok tt, h)) ->
  Sync.for_fields (Sync.sync_field rec from_) fs h = Some (Ok tt, h).
Proof.
  induction fs as [|fd fs IH]; intros Hall; [done|]. simpl.
  rewrite Hall by left. apply IH. intros fd' ?. apply Hall. by right.
Qed.

(** X19: [sync_container] needs a dataclass instance as [to_]: on anything
    else it raises [TypeError] with the store untouched.  When [from_] has
    none of [to_]'s fields ([None], a number, an unrelated object) every
    field is skipped: it returns normally and the store is untouched. *)
Theorem sync_container_edge_inputs h from_ to_ depth :
  (is_dataclass h to_ = false ->
     Sync.sync_container (S depth) from_ to_ h = Some (Raise TypeError, h)) /\
  (forall fs,
     Sync.fields h to_ = Ok fs ->
     (forall fd, fd ∈ fs -> Sync.getattr_or_None h from_ (f_name fd) = VNone) ->
     Sync.sync_container (S depth) from_ to_ h = Some (Ok tt, h)).
Proof.
  split.
  - intros Hto. simpl. unfold Sync.fields.
    destruct to_ as [| | | |l]; try done. simpl in Hto.
    by destruct (h !! l) as [[]|].
  - intros fs Hfs Hnone. simpl. rewrite Hfs.
    apply for_fields_skip_all. intros fd Hin.
    apply sync_field_skip. left. by apply Hnone.
Qed.

Lemma sync_container_edge_inputs_witness :
  Sync.sync_container 1 (VRef 4) (VInt 3) Examples.h_sync
    = Some (Raise TypeError, Examples.h_sync) /\
  Sync.sync_container 1 VNone (VRef 5) Examples.h_sync
    = Some (Ok tt, Examples.h_sync).
Proof.
  split.
  - by apply (sync_container_edge_inputs Examples.h_sync (VRef 4) (VInt 3) 0).
  - destruct (sync_container_edge_inputs Examples.h_sync VNone (VRef 5) 0)
      as [_ Hs].
    apply (Hs (dc_fields Examples.C)); [reflexivity | done].
Defined.

(** X20: synchronising from an instance that holds the declaration's own
    default providers (an instance built without arguments, [to_] itself
    included) changes nothing: each default is assigned its own state. *)
Theorem sync_container_from_defaults_is_noop h from_ lt dc a_to depth :
  h !! lt = Some (ContainerObj dc a_to) ->
  (forall fd d, fd ∈ dc_fields dc -> f_default fd = Some (VRef d) ->
     is_dataclass h (VRef d) = false /\
     (isinstance_Provider h (VRef d) = true ->
        Sync.getattr_or_None h from_ (f_name fd) = VNone \/
        (Sync.getattr_or_None h from_ (f_name fd) = VRef d /\
         exists c a, h !! d = Some (ProviderObj c a) /\
                     forall i, i ∈ c_STATE_FIELDS c -> is_Some (a !! i)))) ->
  Sync.sync_container (S depth) from_ (VRef lt) h = Some (Ok tt, h).
Proof.
  intros Hlt Hfields. simpl. rewrite Hlt.
  apply for_fields_skip_all. intros fd Hin.
  destruct (f_default fd) as [dv|] eqn:Hdef.
  2:{ apply sync_field_skip. right. intros l. by rewrite Hdef. }
  destruct dv as [| | | |d];
    try (apply sync_field_skip; right; intros l; by rewrite Hdef).
  destruct (Hfields fd d Hin Hdef) as [Hdc Hprov].
  destruct (isinstance_Provider h (VRef d)) eqn:Hp.
  2:{ apply sync_field_skip. right. intros l. rewrite Hdef. by intros [= <-]. }
  destruct (Hprov eq_refl) as [Hnone|(Htarget & c & a & Hd & Hall)].
  { apply sync_field_skip. by left. }
  destruct (setstate_own_state_id h d c a Hd Hall) as (st & Hget & Hset).
  unfold Sync.sync_field. rewrite Htarget, Hdef, Hp. simpl.
  by rewrite Hget, Hset.
Qed.

Lemma sync_container_from_defaults_is_noop_witness :
  Sync.sync_container 1 (VRef 6) (VRef 7) Examples.h_nested
    = Some (Ok tt, Examples.h_nested).
Proof.
  apply (sync_container_from_defaults_is_noop Examples.h_nested (VRef 6) 7
           Examples.Inner _ 0 eq_refl).
  intros fd d Hin Hdef. simpl in Hin.
  apply elem_of_cons in Hin as [->|Hin]; [|by inversion Hin].
  injection Hdef as <-. split; [reflexivity|]. intros _. right.
  split; [reflexivity|]. eexists _, _. split; [reflexivity|].
  intros i Hi. vm_compute in Hi.
  repeat (apply elem_of_cons in Hi as [->|Hi]; [by eexists|]).
  by inversion Hi.
Defined.

End SyncMore.
